(** * serial-terminal: the connection lifecycle of [src/index.ts]

    A shallow embedding of the page script of the serial terminal and the
    properties of its connect / duplex / disconnect cycle.

    The script is event driven: every listener and every piece of an [async]
    function between two [await]s runs to completion on the one JavaScript
    thread.  The embedding therefore is a labelled transition system.  The
    labels ([Event]) are what the script does not decide: user input, the
    settlement of a promise of the platform, the delivery of a chunk by a
    pipe, a change of the port's streams, and the order in which ready
    continuations resume.  One step runs one such piece of the script on the
    state of the page ([State]) and appends the calls it makes to a log.

    What is taken from the platform and not from the script:
    - an exception is an object with a [name] and a [message];
    - a string is given by the bytes of its UTF-8 encoding, which is what
      [TextEncoderStream] makes of it; [Number.parseInt] follows ECMAScript
      on these and rounds the integer it reads to a double;
    - a stopping [pipeTo] closes, aborts or cancels its ends as the Streams
      standard says, depending on the three [prevent] options, and rejects
      with an [AbortError] when it stops on its signal;
    - a port that has opened has a readable and a writable stream, a port
      that has closed has none; in between the device decides.
    The locks that a pipe holds on its two streams are left out: the script
    starts a pipe on a stream only after the earlier pipe on it has settled,
    as long as one connection attempt runs at a time, which is the scope of
    the model (see [step]). *)

From Stdlib Require Import String Ascii List ZArith NArith Bool Lia.
From stdpp Require Import base tactics list strings.

Local Open Scope string_scope.
Local Open Scope list_scope.

(** ** Values of the platform *)

Module Js.

(** An exception value, as far as the script looks at it: [e.name] and
    [e.message]. *)
Record Error := { name : string; message : string }.

(** How a promise settles. *)
Inductive Outcome :=
| Fulfilled
| Rejected (e : Error).

Inductive Promise :=
| Pending
| Settled (o : Outcome).

(** [p.catch(handler)]: a rejection is replaced by what the handler
    returns. *)
Definition promise_catch (handler : Error -> Outcome) (o : Outcome) : Outcome :=
  match o with
  | Fulfilled => Fulfilled
  | Rejected e => handler e
  end.

(** A Number produced by [Number.parseInt]: [NaN], an infinity, or a sign
    and an integer that is a double ([-0] is [Finite true 0]). *)
Inductive Number :=
| NaN
| Infinity (negative : bool)
| Finite (negative : bool) (magnitude : N).

(** The Number value of the integer [n] with the sign [negative]: the
    nearest double, a tie going to the even one, and an infinity from
    [2^1024 - 2^970] on.  Up to 53 bits the integer is a double; beyond, the
    bits below the first 53 are rounded away. *)
Definition to_Number (negative : bool) (n : N) : Number :=
  if (N.size n <=? 53)%N then Finite negative n
  else
    let e := (N.size n - 53)%N in
    let q := N.shiftr n e in
    let r := N.land n (N.ones e) in
    let half := N.shiftl 1 (e - 1) in
    let q' := if (half <? r)%N || ((r =? half)%N && N.odd q) then (q + 1)%N else q in
    let m := N.shiftl q' e in
    if (1024 <? N.size m)%N then Infinity negative else Finite negative m.

(** *** Strings

    A string of the script is given by the bytes of its UTF-8 encoding;
    strings with a lone surrogate, which have none, are left out.  Equality
    and concatenation of strings are those of the bytes. *)

(** [TextEncoderStream]: the chunks enqueued for one string written to it,
    the bytes of the string, and no chunk for the empty string. *)
Definition TextEncoderStream (data : string) : list string :=
  if data =? "" then [] else [data].

(** *** [Number.parseInt(string)] with no radix argument *)

(** The white space that [parseInt] skips (StrWhiteSpaceChar), by the bytes
    of the character: TAB, LF, VT, FF, CR and SP have one; U+00A0 has two;
    U+1680, U+2000 to U+200A, U+2028, U+2029, U+202F, U+205F, U+3000 and
    U+FEFF have three. *)
Definition is_white_space_1 (c1 : ascii) : bool :=
  let b1 := N_of_ascii c1 in
  ((9 <=? b1) && (b1 <=? 13) || (b1 =? 32))%N.

Definition is_white_space_2 (c1 c2 : ascii) : bool :=
  ((N_of_ascii c1 =? 194) && (N_of_ascii c2 =? 160))%N.

Definition is_white_space_3 (c1 c2 c3 : ascii) : bool :=
  let b1 := N_of_ascii c1 in
  let b2 := N_of_ascii c2 in
  let b3 := N_of_ascii c3 in
  ((b1 =? 225) && (b2 =? 154) && (b3 =? 128)
   || (b1 =? 226) && (b2 =? 128) &&
      ((128 <=? b3) && (b3 <=? 138) || (b3 =? 168) || (b3 =? 169) || (b3 =? 175))
   || (b1 =? 226) && (b2 =? 129) && (b3 =? 159)
   || (b1 =? 227) && (b2 =? 128) && (b3 =? 128)
   || (b1 =? 239) && (b2 =? 187) && (b3 =? 191))%N.

(** The string starts with a white space character. *)
Definition starts_with_white_space (s : string) : bool :=
  match s with
  | String c1 r1 =>
      is_white_space_1 c1 ||
      match r1 with
      | String c2 r2 =>
          is_white_space_2 c1 c2 ||
          match r2 with
          | String c3 _ => is_white_space_3 c1 c2 c3
          | EmptyString => false
          end
      | EmptyString => false
      end
  | EmptyString => false
  end.

(** The string without the white space at its start. *)
Fixpoint trim_start (s : string) : string :=
  match s with
  | String c1 r1 =>
      if is_white_space_1 c1 then trim_start r1
      else
        match r1 with
        | String c2 r2 =>
            if is_white_space_2 c1 c2 then trim_start r2
            else
              match r2 with
              | String c3 r3 =>
                  if is_white_space_3 c1 c2 c3 then trim_start r3 else s
              | EmptyString => s
              end
        | EmptyString => s
        end
  | EmptyString => s
  end.

Definition is_decimal_digit (c : ascii) : bool :=
  (48 <=? nat_of_ascii c)%nat && (nat_of_ascii c <=? 57)%nat.

(** The value of a character as a digit: [0-9], then [a-z] or [A-Z] for
    ten and above. *)
Definition digit_value (c : ascii) : option N :=
  let n := N_of_ascii c in
  if is_decimal_digit c then Some (n - 48)%N
  else if ((97 <=? n) && (n <=? 122))%N then Some (n - 87)%N
  else if ((65 <=? n) && (n <=? 90))%N then Some (n - 55)%N
  else None.

(** Reads the longest prefix of radix-[radix] digits; [acc] is [None] as
    long as no digit was read. *)
Fixpoint parse_digits (radix : N) (s : string) (acc : option N) : option N :=
  match s with
  | String c r =>
      match digit_value c with
      | Some d =>
          if (d <? radix)%N
          then parse_digits radix r (Some (default 0%N acc * radix + d)%N)
          else acc
      | None => acc
      end
  | EmptyString => acc
  end.

Definition strip_sign (s : string) : bool * string :=
  match s with
  | String "-" r => (true, r)
  | String "+" r => (false, r)
  | _ => (false, s)
  end.

Definition strip_hex_prefix (s : string) : N * string :=
  match s with
  | String "0" (String "x" r) => (16%N, r)
  | String "0" (String "X" r) => (16%N, r)
  | _ => (10%N, s)
  end.

(** The integer that was read is turned into a Number by correct rounding.
    (For more than 20 significant digits ECMAScript lets an implementation
    round a decimal numeral less exactly.) *)
Definition parseInt (input : string) : Number :=
  let '(negative, s) := strip_sign (trim_start input) in
  let '(radix, s) := strip_hex_prefix s in
  match parse_digits radix s None with
  | None => NaN
  | Some m => to_Number negative m
  end.

(** The number that a string of decimal digits denotes, to compare
    [parseInt] with. *)
Definition decimal (s : string) : N :=
  fold_left (fun acc c => (acc * 10 + (N_of_ascii c - 48))%N)
    (list_ascii_of_string s) 0%N.

(** *** Streams: [source.pipeTo(destination, options)] *)

Record PipeOptions := {
  signal : nat;
  preventClose : bool;
  preventAbort : bool;
  preventCancel : bool }.

(** Why a pipe stops. *)
Inductive PipeCause :=
| SourceClosed
| SourceErrored (e : Error)
| DestinationErrored (e : Error)
| DestinationClosed
| SignalAborted.

(** What a stopping pipe does to its two ends. *)
Inductive StreamAction :=
| CloseDestination
| AbortDestination
| CancelSource.

Definition unless (prevent : bool) (a : StreamAction) : list StreamAction :=
  if prevent then [] else [a].

Definition shutdown_actions (o : PipeOptions) (c : PipeCause) : list StreamAction :=
  match c with
  | SourceClosed => unless (preventClose o) CloseDestination
  | SourceErrored _ => unless (preventAbort o) AbortDestination
  | DestinationErrored _ => unless (preventCancel o) CancelSource
  | DestinationClosed => unless (preventCancel o) CancelSource
  | SignalAborted =>
      unless (preventAbort o) AbortDestination ++
      unless (preventCancel o) CancelSource
  end.

Definition AbortError : Error :=
  {| name := "AbortError"; message := "The user aborted a request." |}.

Definition closed_destination : Error :=
  {| name := "TypeError"; message := "Cannot pipe to a closed stream" |}.

(** The settlement of the promise [pipeTo] returned. *)
Definition pipe_outcome (c : PipeCause) : Outcome :=
  match c with
  | SourceClosed => Fulfilled
  | SourceErrored e => Rejected e
  | DestinationErrored e => Rejected e
  | DestinationClosed => Rejected closed_destination
  | SignalAborted => Rejected AbortError
  end.

End Js.

Import Js.

(** ** The page: form elements, globals, tasks *)

(** The elements the script looks up by id (lines 32-39). *)
Inductive ElementId :=
| connectButton
| baudRateSelector
| customBaudRateInput
| dataBitsSelector
| paritySelector
| stopBitsSelector
| flowControlCheckbox
| echoCheckbox.

(** The properties of an element the script reads or writes. *)
Record Element := {
  value : string;
  checked : bool;
  disabled : bool;
  hidden : bool;
  textContent : string }.

Record Dom := {
  el_connectButton : Element;
  el_baudRateSelector : Element;
  el_customBaudRateInput : Element;
  el_dataBitsSelector : Element;
  el_paritySelector : Element;
  el_stopBitsSelector : Element;
  el_flowControlCheckbox : Element;
  el_echoCheckbox : Element }.

Definition element (d : Dom) (id : ElementId) : Element :=
  match id with
  | connectButton => el_connectButton d
  | baudRateSelector => el_baudRateSelector d
  | customBaudRateInput => el_customBaudRateInput d
  | dataBitsSelector => el_dataBitsSelector d
  | paritySelector => el_paritySelector d
  | stopBitsSelector => el_stopBitsSelector d
  | flowControlCheckbox => el_flowControlCheckbox d
  | echoCheckbox => el_echoCheckbox d
  end.

Definition update_element
    (id : ElementId) (f : Element -> Element) (d : Dom) : Dom :=
  let on (id' : ElementId) (e : Element) : Element :=
    match id, id' with
    | connectButton, connectButton
    | baudRateSelector, baudRateSelector
    | customBaudRateInput, customBaudRateInput
    | dataBitsSelector, dataBitsSelector
    | paritySelector, paritySelector
    | stopBitsSelector, stopBitsSelector
    | flowControlCheckbox, flowControlCheckbox
    | echoCheckbox, echoCheckbox => f e
    | _, _ => e
    end in
  {| el_connectButton := on connectButton (el_connectButton d);
     el_baudRateSelector := on baudRateSelector (el_baudRateSelector d);
     el_customBaudRateInput := on customBaudRateInput (el_customBaudRateInput d);
     el_dataBitsSelector := on dataBitsSelector (el_dataBitsSelector d);
     el_paritySelector := on paritySelector (el_paritySelector d);
     el_stopBitsSelector := on stopBitsSelector (el_stopBitsSelector d);
     el_flowControlCheckbox := on flowControlCheckbox (el_flowControlCheckbox d);
     el_echoCheckbox := on echoCheckbox (el_echoCheckbox d) |}.

Definition with_value (v : string) (e : Element) : Element :=
  {| value := v; checked := checked e; disabled := disabled e;
     hidden := hidden e; textContent := textContent e |}.

Definition with_checked (b : bool) (e : Element) : Element :=
  {| value := value e; checked := b; disabled := disabled e;
     hidden := hidden e; textContent := textContent e |}.

Definition with_disabled (b : bool) (e : Element) : Element :=
  {| value := value e; checked := checked e; disabled := b;
     hidden := hidden e; textContent := textContent e |}.

Definition with_hidden (b : bool) (e : Element) : Element :=
  {| value := value e; checked := checked e; disabled := disabled e;
     hidden := b; textContent := textContent e |}.

Definition with_textContent (t : string) (e : Element) : Element :=
  {| value := value e; checked := checked e; disabled := disabled e;
     hidden := hidden e; textContent := t |}.

(** The argument of [port.open] (lines 108-114). *)
Record SerialOptions := {
  baudrate : Number;
  databits : Number;
  parity : string;
  stopbits : Number;
  rtscts : bool }.

(** A chunk of bytes on a stream. *)
Definition Chunk := string.

(** The three [pipeTo] calls of the script. *)
Inductive Pipe :=
| ReadPipe    (* port.readable -> termInputFromPort, line 192 *)
| WritePipe   (* termOutputForPort -> port.writable, line 172 *)
| EchoPipe.   (* termOutputForEcho -> termInputFromEcho, line 165 *)

(** Who makes a call: a listener, a function of the script, or the
    platform. *)
Inductive Actor :=
| in_click_listener
| in_input_listener
| in_data_listener
| in_requestNewPort
| in_connectToPort
| in_processStreams
| in_processReadableStream
| in_processWritableStream
| in_termInputFromPort
| in_termInputFromEcho
| in_platform.

(** The awaits of [processStreams] (lines 144, 148, 149). *)
Inductive Awaited :=
| await_portUnreadable
| await_portUnwritable
| await_close.

(** The calls and assignments that are visible outside the script, in the
    order they happen; [Resumed a] marks that the await [a] of
    [processStreams] has returned. *)
Inductive Op :=
| RequestPort
| Open (o : SerialOptions)
| Close
| NewAbortController (id : nat)
| AbortCall (id : nat)
| PipeTo (p : Pipe) (o : PipeOptions)
| Writeln (line : string)
| WriteUtf8 (chunk : Chunk)
| SetConnected (b : bool)
| SetTextContent (id : ElementId) (t : string)
| SetDisabled (id : ElementId) (b : bool)
| SetHidden (id : ElementId) (b : bool)
| Resumed (a : Awaited)
| PortWrite (chunk : Chunk)
| Shutdown (p : Pipe) (a : StreamAction).

(** [requestNewPort]: idle, or suspended at one of its two awaits (the
    second one inside [connectToPort]). *)
Inductive RequestTask :=
| N_idle
| N_await_requestPort
| N_await_open.

(** [processStreams]: suspended at one of its three awaits, or settled. *)
Inductive StreamsTask :=
| C_idle
| C_await_portUnreadable
| C_await_portUnwritable
| C_await_close
| C_settled (o : Outcome).

(** [processReadableStream]: suspended in its [pipeTo], or settled. *)
Inductive ReadTask :=
| R_undefined
| R_piping (o : PipeOptions)
| R_settled (o : Outcome).

(** [processWritableStream]: suspended in the [pipeTo] of line 172 or in the
    await of line 184, with the local echo controller and the state of
    [localEchoClosed]; or settled. *)
Inductive WriteTask :=
| W_undefined
| W_piping (o : PipeOptions) (echo : PipeOptions) (localEchoClosed : Promise)
| W_await_echo (echo : PipeOptions) (localEchoClosed : Promise)
| W_settled (o : Outcome).

Record State := {
  dom : Dom;
  connected : bool;
  (* the AbortControllers created so far, each with its signal.aborted *)
  controllers : list bool;
  (* which of them the global streamController refers to *)
  streamController : nat;
  (* port.readable and port.writable are not null *)
  port_readable : bool;
  port_writable : bool;
  (* chunks queued in the two branches of the tee of line 64 *)
  termOutputForPort : list Chunk;
  termOutputForEcho : list Chunk;
  task_requestNewPort : RequestTask;
  task_processStreams : StreamsTask;
  portUnreadable : ReadTask;
  portUnwritable : WriteTask;
  log : list (Actor * Op) }.

(** The state after the script has loaded (lines 40-64) and the document
    with form [d] is ready. *)
Definition initial (d : Dom) : State :=
  {| dom := d;
     connected := false;
     controllers := [false];
     streamController := 0;
     port_readable := false;
     port_writable := false;
     termOutputForPort := [];
     termOutputForEcho := [];
     task_requestNewPort := N_idle;
     task_processStreams := C_idle;
     portUnreadable := R_undefined;
     portUnwritable := W_undefined;
     log := [] |}.

(** ** Statements *)

(** A piece of the script that runs without suspending. *)
Definition Stmt := State -> State.

Definition skip : Stmt := fun s => s.

Definition seq (f g : Stmt) : Stmt := fun s => g (f s).

Declare Scope stmt_scope.
Delimit Scope stmt_scope with stmt.
Notation "f ;; g" := (seq f g)
  (at level 100, g at level 200, right associativity) : stmt_scope.
Local Open Scope stmt_scope.

Definition set_dom (d : Dom) : Stmt := fun s =>
  {| dom := d; connected := connected s; controllers := controllers s;
     streamController := streamController s; port_readable := port_readable s;
     port_writable := port_writable s; termOutputForPort := termOutputForPort s;
     termOutputForEcho := termOutputForEcho s;
     task_requestNewPort := task_requestNewPort s;
     task_processStreams := task_processStreams s;
     portUnreadable := portUnreadable s; portUnwritable := portUnwritable s;
     log := log s |}.

Definition set_connected (b : bool) : Stmt := fun s =>
  {| dom := dom s; connected := b; controllers := controllers s;
     streamController := streamController s; port_readable := port_readable s;
     port_writable := port_writable s; termOutputForPort := termOutputForPort s;
     termOutputForEcho := termOutputForEcho s;
     task_requestNewPort := task_requestNewPort s;
     task_processStreams := task_processStreams s;
     portUnreadable := portUnreadable s; portUnwritable := portUnwritable s;
     log := log s |}.

Definition set_controllers (l : list bool) : Stmt := fun s =>
  {| dom := dom s; connected := connected s; controllers := l;
     streamController := streamController s; port_readable := port_readable s;
     port_writable := port_writable s; termOutputForPort := termOutputForPort s;
     termOutputForEcho := termOutputForEcho s;
     task_requestNewPort := task_requestNewPort s;
     task_processStreams := task_processStreams s;
     portUnreadable := portUnreadable s; portUnwritable := portUnwritable s;
     log := log s |}.

Definition set_streamController (id : nat) : Stmt := fun s =>
  {| dom := dom s; connected := connected s; controllers := controllers s;
     streamController := id; port_readable := port_readable s;
     port_writable := port_writable s; termOutputForPort := termOutputForPort s;
     termOutputForEcho := termOutputForEcho s;
     task_requestNewPort := task_requestNewPort s;
     task_processStreams := task_processStreams s;
     portUnreadable := portUnreadable s; portUnwritable := portUnwritable s;
     log := log s |}.

Definition set_port_streams (r w : bool) : Stmt := fun s =>
  {| dom := dom s; connected := connected s; controllers := controllers s;
     streamController := streamController s; port_readable := r;
     port_writable := w; termOutputForPort := termOutputForPort s;
     termOutputForEcho := termOutputForEcho s;
     task_requestNewPort := task_requestNewPort s;
     task_processStreams := task_processStreams s;
     portUnreadable := portUnreadable s; portUnwritable := portUnwritable s;
     log := log s |}.

Definition set_termOutput (forPort forEcho : list Chunk) : Stmt := fun s =>
  {| dom := dom s; connected := connected s; controllers := controllers s;
     streamController := streamController s; port_readable := port_readable s;
     port_writable := port_writable s; termOutputForPort := forPort;
     termOutputForEcho := forEcho;
     task_requestNewPort := task_requestNewPort s;
     task_processStreams := task_processStreams s;
     portUnreadable := portUnreadable s; portUnwritable := portUnwritable s;
     log := log s |}.

Definition set_task_requestNewPort (t : RequestTask) : Stmt := fun s =>
  {| dom := dom s; connected := connected s; controllers := controllers s;
     streamController := streamController s; port_readable := port_readable s;
     port_writable := port_writable s; termOutputForPort := termOutputForPort s;
     termOutputForEcho := termOutputForEcho s;
     task_requestNewPort := t;
     task_processStreams := task_processStreams s;
     portUnreadable := portUnreadable s; portUnwritable := portUnwritable s;
     log := log s |}.

Definition set_task_processStreams (t : StreamsTask) : Stmt := fun s =>
  {| dom := dom s; connected := connected s; controllers := controllers s;
     streamController := streamController s; port_readable := port_readable s;
     port_writable := port_writable s; termOutputForPort := termOutputForPort s;
     termOutputForEcho := termOutputForEcho s;
     task_requestNewPort := task_requestNewPort s;
     task_processStreams := t;
     portUnreadable := portUnreadable s; portUnwritable := portUnwritable s;
     log := log s |}.

Definition set_portUnreadable (t : ReadTask) : Stmt := fun s =>
  {| dom := dom s; connected := connected s; controllers := controllers s;
     streamController := streamController s; port_readable := port_readable s;
     port_writable := port_writable s; termOutputForPort := termOutputForPort s;
     termOutputForEcho := termOutputForEcho s;
     task_requestNewPort := task_requestNewPort s;
     task_processStreams := task_processStreams s;
     portUnreadable := t; portUnwritable := portUnwritable s;
     log := log s |}.

Definition set_portUnwritable (t : WriteTask) : Stmt := fun s =>
  {| dom := dom s; connected := connected s; controllers := controllers s;
     streamController := streamController s; port_readable := port_readable s;
     port_writable := port_writable s; termOutputForPort := termOutputForPort s;
     termOutputForEcho := termOutputForEcho s;
     task_requestNewPort := task_requestNewPort s;
     task_processStreams := task_processStreams s;
     portUnreadable := portUnreadable s; portUnwritable := t;
     log := log s |}.

(** Appends calls to the log. *)
Definition emit_all (a : Actor) (os : list Op) : Stmt := fun s =>
  {| dom := dom s; connected := connected s; controllers := controllers s;
     streamController := streamController s; port_readable := port_readable s;
     port_writable := port_writable s; termOutputForPort := termOutputForPort s;
     termOutputForEcho := termOutputForEcho s;
     task_requestNewPort := task_requestNewPort s;
     task_processStreams := task_processStreams s;
     portUnreadable := portUnreadable s; portUnwritable := portUnwritable s;
     log := log s ++ map (pair a) os |}.

Definition emit (a : Actor) (o : Op) : Stmt := emit_all a [o].

(** *** Assignments and calls of the script *)

Definition assign_connected (a : Actor) (b : bool) : Stmt :=
  set_connected b ;; emit a (SetConnected b).

Definition assign_textContent (a : Actor) (id : ElementId) (t : string) : Stmt :=
  (fun s => set_dom (update_element id (with_textContent t) (dom s)) s) ;;
  emit a (SetTextContent id t).

Definition assign_disabled (a : Actor) (id : ElementId) (b : bool) : Stmt :=
  (fun s => set_dom (update_element id (with_disabled b) (dom s)) s) ;;
  emit a (SetDisabled id b).

Definition assign_hidden (a : Actor) (id : ElementId) (b : bool) : Stmt :=
  (fun s => set_dom (update_element id (with_hidden b) (dom s)) s) ;;
  emit a (SetHidden id b).

Definition term_writeln (a : Actor) (line : string) : Stmt :=
  emit a (Writeln line).

Definition term_writeUtf8 (a : Actor) (chunk : Chunk) : Stmt :=
  emit a (WriteUtf8 chunk).

(** [signal.aborted] of controller [id]. *)
Definition aborted (s : State) (id : nat) : bool :=
  default false (controllers s !! id).

(** [controller.abort()]. *)
Definition abort (a : Actor) (id : nat) : Stmt :=
  (fun s => set_controllers (<[id := true]> (controllers s)) s) ;;
  emit a (AbortCall id).

(** [new AbortController()]: the new controller is the next one of the
    list. *)
Definition fresh_controller (s : State) : nat := length (controllers s).

Definition new_AbortController (a : Actor) : Stmt := fun s =>
  (set_controllers (controllers s ++ [false]) ;;
   emit a (NewAbortController (fresh_controller s))) s.

(** The options of the three [pipeTo] calls: a signal, and the three
    [prevent] flags all set (lines 167-170, 174-177, 194-197). *)
Definition pipe_options (sig : nat) : PipeOptions :=
  {| signal := sig; preventClose := true; preventAbort := true;
     preventCancel := true |}.

(** ** The script *)

(** Lines 46-50. *)
Definition termInputFromPort_write (chunk : Chunk) : Stmt :=
  term_writeUtf8 in_termInputFromPort chunk.

(** Lines 51-57. *)
Definition termInputFromEcho_write (chunk : Chunk) : Stmt := fun s =>
  if checked (el_echoCheckbox (dom s))
  then term_writeUtf8 in_termInputFromEcho chunk s
  else s.

(** Lines 58-64: the data of the terminal is enqueued, encoded, and
    offered to both branches of the tee. *)
Definition data_listener (data : Chunk) : Stmt := fun s =>
  set_termOutput (termOutputForPort s ++ TextEncoderStream data)
    (termOutputForEcho s ++ TextEncoderStream data) s.

(** Lines 79-85. *)
Definition input_listener : Stmt := fun s =>
  if value (el_baudRateSelector (dom s)) =? "custom"
  then assign_hidden in_input_listener customBaudRateInput false s
  else assign_hidden in_input_listener customBaudRateInput true s.

(** Lines 130-135. *)
Definition getSelectedBaudRate (d : Dom) : Number :=
  if value (el_baudRateSelector d) =? "custom"
  then parseInt (value (el_customBaudRateInput d))
  else parseInt (value (el_baudRateSelector d)).

(** Lines 189-204, from the loop test to the await of line 192 or to the
    return. *)
Definition processReadableStream : Stmt := fun s =>
  if port_readable s && negb (aborted s (streamController s))
  then
    let o := pipe_options (streamController s) in
    (emit in_processReadableStream (PipeTo ReadPipe o) ;;
     set_portUnreadable (R_piping o)) s
  else set_portUnreadable (R_settled Fulfilled) s.

(** Lines 198-202, then the loop again. *)
Definition processReadableStream_catch (e : Error) : Stmt :=
  if negb (name e =? "AbortError")
  then term_writeln in_processReadableStream ("<READ ERROR: " +:+ message e +:+ ">")
  else skip.

Definition processReadableStream_resume (o : Outcome) : Stmt :=
  match o with
  | Fulfilled => processReadableStream
  | Rejected e => processReadableStream_catch e ;; processReadableStream
  end.

(** Lines 162-187, from the loop test to the await of line 172 or to the
    return. *)
Definition processWritableStream : Stmt := fun s =>
  if port_writable s && negb (aborted s (streamController s))
  then
    let localEchoController := fresh_controller s in
    let echo := pipe_options localEchoController in
    let o := pipe_options (streamController s) in
    (new_AbortController in_processWritableStream ;;
     emit in_processWritableStream (PipeTo EchoPipe echo) ;;
     emit in_processWritableStream (PipeTo WritePipe o) ;;
     set_portUnwritable (W_piping o echo Pending)) s
  else set_portUnwritable (W_settled Fulfilled) s.

(** Lines 178-181. *)
Definition processWritableStream_catch (e : Error) : Stmt :=
  if negb (name e =? "AbortError")
  then term_writeln in_processWritableStream ("<WRITE ERROR: " +:+ message e +:+ ">")
  else skip.

(** Lines 178-184: the pipe of line 172 has settled with [o]; catch, then
    finally, up to the await of line 184. *)
Definition processWritableStream_settled
    (o : Outcome) (echo : PipeOptions) (localEchoClosed : Promise) : Stmt :=
  match o with
  | Fulfilled => skip
  | Rejected e => processWritableStream_catch e
  end ;;
  abort in_processWritableStream (signal echo) ;;
  set_portUnwritable (W_await_echo echo localEchoClosed).

(** Line 184 returns: [localEchoClosed.catch(() => {})] has settled.  A
    rejection of it would leave the function through the [finally]. *)
Definition processWritableStream_resume (localEchoClosed : Outcome) : Stmt :=
  match promise_catch (fun _ => Fulfilled) localEchoClosed with
  | Fulfilled => processWritableStream
  | Rejected e => set_portUnwritable (W_settled (Rejected e))
  end.

(** Lines 137-144, up to the first await. *)
Definition processStreams : Stmt :=
  (fun s => (new_AbortController in_processStreams ;;
             set_streamController (fresh_controller s)) s) ;;
  processReadableStream ;;
  processWritableStream ;;
  set_task_processStreams C_await_portUnreadable.

(** Lines 146-148. *)
Definition processStreams_unreadable : Stmt := fun s =>
  (emit in_processStreams (Resumed await_portUnreadable) ;;
   abort in_processStreams (streamController s) ;;
   set_task_processStreams C_await_portUnwritable) s.

(** Line 149. *)
Definition processStreams_unwritable : Stmt :=
  emit in_processStreams (Resumed await_portUnwritable) ;;
  emit in_processStreams Close ;;
  set_task_processStreams C_await_close.

(** Lines 151-160. *)
Definition processStreams_closed : Stmt :=
  emit in_processStreams (Resumed await_close) ;;
  assign_connected in_processStreams false ;;
  assign_textContent in_processStreams connectButton "Connect" ;;
  assign_disabled in_processStreams baudRateSelector false ;;
  assign_disabled in_processStreams customBaudRateInput false ;;
  assign_disabled in_processStreams dataBitsSelector false ;;
  assign_disabled in_processStreams paritySelector false ;;
  assign_disabled in_processStreams stopBitsSelector false ;;
  assign_disabled in_processStreams flowControlCheckbox false ;;
  term_writeln in_processStreams "<DISCONNECTED>" ;;
  set_task_processStreams (C_settled Fulfilled).

(** An await of [processStreams] throws: nothing catches it, the promise of
    [processStreams] is rejected and nobody looks at it (line 127). *)
Definition processStreams_throw (e : Error) : Stmt :=
  set_task_processStreams (C_settled (Rejected e)).

(** Lines 107-115, up to the await of [port.open]. *)
Definition connectToPort : Stmt := fun s =>
  let options :=
    {| baudrate := getSelectedBaudRate (dom s);
       databits := parseInt (value (el_dataBitsSelector (dom s)));
       parity := value (el_paritySelector (dom s));
       stopbits := parseInt (value (el_stopBitsSelector (dom s)));
       rtscts := checked (el_flowControlCheckbox (dom s)) |} in
  (emit in_connectToPort (Open options) ;;
   set_task_requestNewPort N_await_open) s.

(** Lines 117-128; [processStreams] is called and not awaited, so
    [connectToPort] and with it [requestNewPort] return. *)
Definition connectToPort_opened : Stmt :=
  assign_connected in_connectToPort true ;;
  assign_textContent in_connectToPort connectButton "Disconnect" ;;
  assign_disabled in_connectToPort baudRateSelector true ;;
  assign_disabled in_connectToPort customBaudRateInput true ;;
  assign_disabled in_connectToPort dataBitsSelector true ;;
  assign_disabled in_connectToPort paritySelector true ;;
  assign_disabled in_connectToPort stopBitsSelector true ;;
  assign_disabled in_connectToPort flowControlCheckbox true ;;
  term_writeln in_connectToPort "<CONNECTED>" ;;
  processStreams ;;
  set_task_requestNewPort N_idle.

(** Lines 96-98, up to the await of [requestPort]. *)
Definition requestNewPort : Stmt :=
  emit in_requestNewPort RequestPort ;;
  set_task_requestNewPort N_await_requestPort.

(** Lines 100-104: either await of the [try] block has thrown [e]. *)
Definition requestNewPort_catch (e : Error) : Stmt :=
  (if negb (name e =? "NotFoundError")
   then term_writeln in_requestNewPort ("<CONNECT ERROR: " +:+ message e)
   else skip) ;;
  set_task_requestNewPort N_idle.

(** Lines 70-76. *)
Definition click_listener : Stmt := fun s =>
  if connected s
  then abort in_click_listener (streamController s) s
  else requestNewPort s.

(** ** Events and steps *)

Inductive Event :=
(* the user *)
| Click                                   (* on the connect button *)
| Input (id : ElementId) (v : string)     (* edits the value of an element *)
| SetChecked (id : ElementId) (b : bool)  (* sets a checkbox *)
| Key (data : Chunk)                      (* types into the terminal *)
(* the platform settles a promise the script awaits *)
| RequestPortSettles (o : Outcome)
| OpenSettles (o : Outcome)
| CloseSettles (o : Outcome)
| PipeSettles (p : Pipe) (c : PipeCause)
(* a pending pipe moves one chunk *)
| PortData (chunk : Chunk)       (* port.readable -> termInputFromPort *)
| PortTakes                      (* termOutputForPort -> port.writable *)
| EchoTakes                      (* termOutputForEcho -> termInputFromEcho *)
(* the device: port.readable and port.writable come and go *)
| PortStreams (readable writable : bool)
(* a continuation whose awaited promise has settled runs *)
| ResumeProcessStreams
| ResumeProcessWritableStream.

(** The platform stops a pipe with [SignalAborted] only when the signal of
    the pipe is aborted; the other causes lie with the streams. *)
Definition may_stop (s : State) (o : PipeOptions) (c : PipeCause) : bool :=
  match c with
  | SignalAborted => aborted s (signal o)
  | _ => true
  end.

(** The platform stops pipe [p]: what it does to the two ends. *)
Definition stop_pipe (p : Pipe) (o : PipeOptions) (c : PipeCause) : Stmt :=
  emit_all in_platform (map (Shutdown p) (shutdown_actions o c)).

(** The echo pipe of the running iteration of [processWritableStream], if
    it has not settled. *)
Definition pending_echo (s : State) : option PipeOptions :=
  match portUnwritable s with
  | W_piping _ echo Pending => Some echo
  | W_await_echo echo Pending => Some echo
  | _ => None
  end.

Definition settle_echo (out : Outcome) : Stmt := fun s =>
  match portUnwritable s with
  | W_piping o echo _ => set_portUnwritable (W_piping o echo (Settled out)) s
  | W_await_echo echo _ => set_portUnwritable (W_await_echo echo (Settled out)) s
  | _ => s
  end.

(** One step.  [None]: the event cannot happen in this state.  A click that
    would start a second [requestNewPort] while one is suspended is left
    out: the model follows one connection attempt at a time. *)
Definition step (ev : Event) (s : State) : option State :=
  match ev with
  | Click =>
      if connected s then Some (click_listener s)
      else match task_requestNewPort s with
           | N_idle => Some (click_listener s)
           | _ => None
           end
  | Input id v =>
      if disabled (element (dom s) id) then None
      else
        let s' := set_dom (update_element id (with_value v) (dom s)) s in
        match id with
        | baudRateSelector => Some (input_listener s')
        | _ => Some s'
        end
  | SetChecked id b =>
      if disabled (element (dom s) id) then None
      else Some (set_dom (update_element id (with_checked b) (dom s)) s)
  | Key data => Some (data_listener data s)
  | RequestPortSettles o =>
      match task_requestNewPort s, o with
      | N_await_requestPort, Fulfilled => Some (connectToPort s)
      | N_await_requestPort, Rejected e => Some (requestNewPort_catch e s)
      | _, _ => None
      end
  | OpenSettles o =>
      match task_requestNewPort s, o with
      | N_await_open, Fulfilled =>
          Some ((set_port_streams true true ;; connectToPort_opened) s)
      | N_await_open, Rejected e => Some (requestNewPort_catch e s)
      | _, _ => None
      end
  | CloseSettles o =>
      match task_processStreams s, o with
      | C_await_close, Fulfilled =>
          Some ((set_port_streams false false ;; processStreams_closed) s)
      | C_await_close, Rejected e => Some (processStreams_throw e s)
      | _, _ => None
      end
  | PipeSettles ReadPipe c =>
      match portUnreadable s with
      | R_piping o =>
          if may_stop s o c
          then Some ((stop_pipe ReadPipe o c ;;
                      processReadableStream_resume (pipe_outcome c)) s)
          else None
      | _ => None
      end
  | PipeSettles WritePipe c =>
      match portUnwritable s with
      | W_piping o echo localEchoClosed =>
          if may_stop s o c
          then Some ((stop_pipe WritePipe o c ;;
                      processWritableStream_settled (pipe_outcome c) echo
                        localEchoClosed) s)
          else None
      | _ => None
      end
  | PipeSettles EchoPipe c =>
      match pending_echo s with
      | Some echo =>
          if may_stop s echo c
          then Some ((stop_pipe EchoPipe echo c ;; settle_echo (pipe_outcome c)) s)
          else None
      | None => None
      end
  | PortData chunk =>
      match portUnreadable s with
      | R_piping _ => Some (termInputFromPort_write chunk s)
      | _ => None
      end
  | PortTakes =>
      match portUnwritable s, termOutputForPort s with
      | W_piping _ _ _, chunk :: rest =>
          Some ((set_termOutput rest (termOutputForEcho s) ;;
                 emit in_platform (PortWrite chunk)) s)
      | _, _ => None
      end
  | EchoTakes =>
      match pending_echo s, termOutputForEcho s with
      | Some _, chunk :: rest =>
          Some ((set_termOutput (termOutputForPort s) rest ;;
                 termInputFromEcho_write chunk) s)
      | _, _ => None
      end
  | PortStreams r w => Some (set_port_streams r w s)
  | ResumeProcessStreams =>
      match task_processStreams s with
      | C_await_portUnreadable =>
          match portUnreadable s with
          | R_settled Fulfilled => Some (processStreams_unreadable s)
          | R_settled (Rejected e) => Some (processStreams_throw e s)
          | _ => None
          end
      | C_await_portUnwritable =>
          match portUnwritable s with
          | W_settled Fulfilled => Some (processStreams_unwritable s)
          | W_settled (Rejected e) => Some (processStreams_throw e s)
          | _ => None
          end
      | _ => None
      end
  | ResumeProcessWritableStream =>
      match portUnwritable s with
      | W_await_echo _ (Settled out) => Some (processWritableStream_resume out s)
      | _ => None
      end
  end.

(** A run: the events one after the other. *)
Fixpoint exec (evs : list Event) (s : State) : option State :=
  match evs with
  | [] => Some s
  | ev :: evs' =>
      match step ev s with
      | Some s' => exec evs' s'
      | None => None
      end
  end.

(** The states the page can be in. *)
Inductive reachable : State -> Prop :=
| reachable_initial (d : Dom) : reachable (initial d)
| reachable_step (ev : Event) (s s' : State) :
    reachable s -> step ev s = Some s' -> reachable s'.

(** What the terminal shows: the lines and chunks written to it. *)
Definition is_display (x : Actor * Op) : bool :=
  match snd x with
  | Writeln _ | WriteUtf8 _ => true
  | _ => false
  end.

Definition display (s : State) : list Op :=
  map snd (List.filter is_display (log s)).

(** ** Reading the log *)

Definition Actor_eqb (a b : Actor) : bool :=
  match a, b with
  | in_click_listener, in_click_listener
  | in_input_listener, in_input_listener
  | in_data_listener, in_data_listener
  | in_requestNewPort, in_requestNewPort
  | in_connectToPort, in_connectToPort
  | in_processStreams, in_processStreams
  | in_processReadableStream, in_processReadableStream
  | in_processWritableStream, in_processWritableStream
  | in_termInputFromPort, in_termInputFromPort
  | in_termInputFromEcho, in_termInputFromEcho
  | in_platform, in_platform => true
  | _, _ => false
  end.

(** The calls made by [a], in order. *)
Definition ops_of (a : Actor) (l : list (Actor * Op)) : list Op :=
  map snd (List.filter (fun x => Actor_eqb (fst x) a) l).

(** What [processStreams] does in one complete run whose controller is
    [id] (lines 138-159). *)
Definition run_ops (id : nat) : list Op :=
  [ NewAbortController id;
    Resumed await_portUnreadable;
    AbortCall id;
    Resumed await_portUnwritable;
    Close;
    Resumed await_close;
    SetConnected false;
    SetTextContent connectButton "Connect";
    SetDisabled baudRateSelector false;
    SetDisabled customBaudRateInput false;
    SetDisabled dataBitsSelector false;
    SetDisabled paritySelector false;
    SetDisabled stopBitsSelector false;
    SetDisabled flowControlCheckbox false;
    Writeln "<DISCONNECTED>" ].

(** How many of them are done when [processStreams] is in state [t]. *)
Definition progress (t : StreamsTask) : nat :=
  match t with
  | C_idle => 0
  | C_await_portUnreadable => 1
  | C_await_portUnwritable => 3
  | C_await_close => 5
  | C_settled (Rejected _) => 5
  | C_settled Fulfilled => 15
  end.

(** The elements are as the script leaves them after a disconnect. *)
Definition ui_disconnected (d : Dom) : Prop :=
  textContent (el_connectButton d) = "Connect" /\
  disabled (el_baudRateSelector d) = false /\
  disabled (el_customBaudRateInput d) = false /\
  disabled (el_dataBitsSelector d) = false /\
  disabled (el_paritySelector d) = false /\
  disabled (el_stopBitsSelector d) = false /\
  disabled (el_flowControlCheckbox d) = false.

(** ** Invariants of the reachable states *)

Definition read_task_ok (s : State) : Prop :=
  match portUnreadable s with
  | R_undefined => True
  | R_piping o => o = pipe_options (streamController s)
  | R_settled o => o = Fulfilled
  end.

Definition echo_ok (s : State) (echo : PipeOptions) : Prop :=
  echo = pipe_options (signal echo) /\
  signal echo < length (controllers s) /\
  signal echo <> streamController s.

Definition write_task_ok (s : State) : Prop :=
  match portUnwritable s with
  | W_undefined => True
  | W_piping o echo _ => o = pipe_options (streamController s) /\ echo_ok s echo
  | W_await_echo echo _ => echo_ok s echo /\ aborted s (signal echo) = true
  | W_settled o => o = Fulfilled
  end.

Definition session_over (s : State) : Prop :=
  portUnreadable s = R_settled Fulfilled /\ portUnwritable s = W_settled Fulfilled.

(** Neither pump has thrown. *)
Definition no_pump_rejected (s : State) : Prop :=
  (forall e, portUnreadable s <> R_settled (Rejected e)) /\
  (forall e, portUnwritable s <> W_settled (Rejected e)).

(** Where [processStreams] stands fixes [connected] and what the pumps can
    be doing. *)
Definition phase_ok (s : State) : Prop :=
  match task_processStreams s with
  | C_idle =>
      connected s = false /\ portUnreadable s = R_undefined /\
      portUnwritable s = W_undefined
  | C_settled Fulfilled => connected s = false /\ session_over s
  | C_await_portUnreadable =>
      connected s = true /\ task_requestNewPort s = N_idle /\
      portUnreadable s <> R_undefined /\ portUnwritable s <> W_undefined
  | C_await_portUnwritable =>
      connected s = true /\ task_requestNewPort s = N_idle /\
      portUnreadable s = R_settled Fulfilled /\ portUnwritable s <> W_undefined /\
      aborted s (streamController s) = true
  | C_await_close | C_settled (Rejected _) =>
      connected s = true /\ task_requestNewPort s = N_idle /\ session_over s /\
      aborted s (streamController s) = true
  end.

(** The calls of [processStreams] so far: complete runs, then the part of
    the current run that is done. *)
Definition runs_ok (s : State) : Prop :=
  exists ids : list nat,
    ops_of in_processStreams (log s) =
    concat (map run_ops ids) ++
    firstn (progress (task_processStreams s)) (run_ops (streamController s)).

(** No pipe has closed, aborted or cancelled one of its ends. *)
Definition is_shutdown (x : Actor * Op) : bool :=
  match snd x with
  | Shutdown _ _ => true
  | _ => false
  end.

Definition no_shutdown (s : State) : Prop :=
  List.filter is_shutdown (log s) = [].

Record Inv (s : State) : Prop := {
  inv_controller : streamController s < length (controllers s);
  inv_read : read_task_ok s;
  inv_write : write_task_ok s;
  inv_phase : phase_ok s;
  inv_runs : runs_ok s;
  inv_shutdown : no_shutdown s }.

(** ** A form and some errors to run the script on *)

Definition blank : Element :=
  {| value := ""; checked := false; disabled := false; hidden := false;
     textContent := "" |}.

(** The form as the page shows it first: 9600 baud, 8 data bits, no parity,
    1 stop bit, no flow control, no echo. *)
Definition form0 : Dom :=
  {| el_connectButton := with_textContent "Connect" blank;
     el_baudRateSelector := with_value "9600" blank;
     el_customBaudRateInput := with_hidden true blank;
     el_dataBitsSelector := with_value "8" blank;
     el_paritySelector := with_value "none" blank;
     el_stopBitsSelector := with_value "1" blank;
     el_flowControlCheckbox := blank;
     el_echoCheckbox := blank |}.

Definition BufferOverrunError : Error :=
  {| name := "BufferOverrunError"; message := "Buffer overrun" |}.

Definition NetworkError : Error :=
  {| name := "NetworkError"; message := "Failed to open serial port." |}.

Definition NotFoundError : Error :=
  {| name := "NotFoundError"; message := "No port selected by the user." |}.

(** Click, choose a port, the port opens. *)
Definition connect : list Event :=
  [Click; RequestPortSettles Fulfilled; OpenSettles Fulfilled].

(** Click again; both pumps stop on the abort and [processStreams] calls
    [port.close]. *)
Definition disconnect : list Event :=
  [Click;
   PipeSettles ReadPipe SignalAborted;
   ResumeProcessStreams;
   PipeSettles WritePipe SignalAborted;
   PipeSettles EchoPipe SignalAborted;
   ResumeProcessWritableStream;
   ResumeProcessStreams].

(** The state in which [port.close] has been called, after one connect and
    one disconnect on [form0]. *)
Definition closing : State :=
  Eval vm_compute in
    default (initial form0) (exec (connect ++ disconnect) (initial form0)).

(** What one looks at after a run on [form0]: [connected], the three
    tasks, the text of the button, and the terminal. *)
Definition observe (evs : list Event)
    : option (bool * StreamsTask * ReadTask * WriteTask * string * list Op) :=
  option_map
    (fun s => (connected s, task_processStreams s, portUnreadable s,
               portUnwritable s, textContent (el_connectButton (dom s)),
               display s))
    (exec evs (initial form0)).

(** The state after the events [evs] on [form0]. *)
Definition after (evs : list Event) : State :=
  default (initial form0) (exec evs (initial form0)).

(** A session: connected, both pumps piping. *)
Definition session : State := Eval vm_compute in after connect.

(** The read pipe of the session has failed with a buffer overrun. *)
Definition session_read_error : State :=
  Eval vm_compute in
    after (connect ++ [PipeSettles ReadPipe (SourceErrored BufferOverrunError)]).

(** The write pipe of the session has failed. *)
Definition session_write_error : State :=
  Eval vm_compute in
    after (connect ++ [PipeSettles WritePipe (DestinationErrored NetworkError)]).

(** The user has clicked to disconnect. *)
Definition session_aborted : State :=
  Eval vm_compute in after (connect ++ [Click]).

(** ... and the read pipe has stopped on the abort. *)
Definition session_read_stopped : State :=
  Eval vm_compute in
    after (connect ++ [Click; PipeSettles ReadPipe SignalAborted]).

(** The user switches echo on, then types "a"; the echo pipe delivers it. *)
Definition session_echo_typed : State :=
  Eval vm_compute in after (connect ++ [SetChecked echoCheckbox true; Key "a"]).

Definition session_echo_shown : State :=
  Eval vm_compute in
    after (connect ++ [SetChecked echoCheckbox true; Key "a"; EchoTakes]).

(** A port is chosen and [port.open] is pending; then it fails. *)
Definition opening : State :=
  Eval vm_compute in after [Click; RequestPortSettles Fulfilled].

Definition open_failed : State :=
  Eval vm_compute in
    after [Click; RequestPortSettles Fulfilled; OpenSettles (Rejected NetworkError)].

(** The user asks for the custom baud rate "fast". *)
Definition custom_baud : list Event :=
  [Input baudRateSelector "custom"; Input customBaudRateInput "fast"; Click].

Definition choosing_custom : State := Eval vm_compute in after custom_baud.

Definition opening_custom : State :=
  Eval vm_compute in after (custom_baud ++ [RequestPortSettles Fulfilled]).

(** The lines the script writes to the terminal, by the text of lines 102,
    125, 159, 180 and 200. *)
Definition is_annotation (line : string) : Prop :=
  line = "<CONNECTED>" \/
  line = "<DISCONNECTED>" \/
  (exists m, line = "<CONNECT ERROR: " +:+ m) \/
  (exists m, line = "<READ ERROR: " +:+ m +:+ ">") \/
  (exists m, line = "<WRITE ERROR: " +:+ m +:+ ">").

Definition annotated (x : Actor * Op) : Prop :=
  match snd x with
  | Writeln line => is_annotation line
  | _ => True
  end.

(** ** What the events bring and what the log shows of it *)

(** The chunks that the encoder of line 64 makes of what is typed into the
    terminal. *)
Definition keys (evs : list Event) : list Chunk :=
  flat_map
    (fun ev => match ev with Key data => TextEncoderStream data | _ => [] end)
    evs.

(** The chunks written to the terminal by the sink [a]. *)
Definition shown_by (a : Actor) (l : list (Actor * Op)) : list Chunk :=
  flat_map (fun o => match o with WriteUtf8 chunk => [chunk] | _ => [] end)
    (ops_of a l).

(** The chunks written to [port.writable]. *)
Definition port_written (l : list (Actor * Op)) : list Chunk :=
  flat_map (fun o => match o with PortWrite chunk => [chunk] | _ => [] end)
    (ops_of in_platform l).

(** The custom input is hidden unless the selector says "custom" (what the
    listener of lines 79-85 establishes). *)
Definition custom_input_shown (d : Dom) : Prop :=
  hidden (el_customBaudRateInput d) =
  negb (value (el_baudRateSelector d) =? "custom").

(** The elements are as [connectToPort] leaves them (lines 118-124). *)
Definition ui_connected (d : Dom) : Prop :=
  textContent (el_connectButton d) = "Disconnect" /\
  disabled (el_baudRateSelector d) = true /\
  disabled (el_customBaudRateInput d) = true /\
  disabled (el_dataBitsSelector d) = true /\
  disabled (el_paritySelector d) = true /\
  disabled (el_stopBitsSelector d) = true /\
  disabled (el_flowControlCheckbox d) = true.

(** What the user has entered: values and checkboxes of all elements. *)
Definition entries (d : Dom) : list (string * bool) :=
  map (fun id => (value (element d id), checked (element d id)))
    [connectButton; baudRateSelector; customBaudRateInput; dataBitsSelector;
     paritySelector; stopBitsSelector; flowControlCheckbox; echoCheckbox].

(** The settings of the port as [connectToPort] reads them (lines 108-114). *)
Definition settings (d : Dom) : list string * bool :=
  ([value (el_baudRateSelector d); value (el_customBaudRateInput d);
    value (el_dataBitsSelector d); value (el_paritySelector d);
    value (el_stopBitsSelector d)],
   checked (el_flowControlCheckbox d)).

(** The event is an edit of the form by the user. *)
Definition is_edit (ev : Event) : bool :=
  match ev with
  | Input _ _ | SetChecked _ _ => true
  | _ => false
  end.

(** A session after a click on "Disconnect" whose pipes have not stopped
    yet, and one whose [port.close] has failed. *)
Definition close_failed : State :=
  Eval vm_compute in
    after (connect ++ disconnect ++ [CloseSettles (Rejected NetworkError)]).

(** A second session after a first one has been closed. *)
Definition second_opening : State :=
  Eval vm_compute in
    after (connect ++ disconnect ++
           [CloseSettles Fulfilled; Click; RequestPortSettles Fulfilled]).

Definition second_session : State :=
  Eval vm_compute in
    after (connect ++ disconnect ++
           [CloseSettles Fulfilled; Click; RequestPortSettles Fulfilled;
            OpenSettles Fulfilled]).

(** Keys have been typed in a session; a session has been closed; clicks
    after a failed [port.close]. *)
Definition session_typed : State :=
  Eval vm_compute in after (connect ++ [Key "a"; Key ""; PortTakes; Key "b"]).

Definition closed : State :=
  Eval vm_compute in after (connect ++ disconnect ++ [CloseSettles Fulfilled]).

Definition close_failed_clicked : State :=
  Eval vm_compute in
    after (connect ++ disconnect ++
           [CloseSettles (Rejected NetworkError); Click; Key "a"; Click]).

(** * Proofs *)

(** ** Evaluating the script on a state given by its fields *)

#[local] Opaque String.eqb String.append.

Ltac fields :=
  cbn [dom connected controllers streamController port_readable port_writable
    termOutputForPort termOutputForEcho task_requestNewPort task_processStreams
    portUnreadable portUnwritable log] in *.

(** A state given by its fields. *)
Ltac destruct_state s :=
  destruct s as [form conn ctls sc readable writable forPort forEcho
                 t_request t_streams t_read t_write calls];
  fields.

(** The script, unfolded down to records of fields. *)
Ltac eval_term t :=
  eval cbv [step may_stop click_listener requestNewPort requestNewPort_catch
    connectToPort connectToPort_opened processStreams processStreams_unreadable
    processStreams_unwritable processStreams_closed processStreams_throw
    processReadableStream_resume processReadableStream_catch
    processReadableStream processWritableStream_resume
    processWritableStream_settled processWritableStream_catch
    processWritableStream input_listener data_listener termInputFromEcho_write
    termInputFromPort_write stop_pipe settle_echo pending_echo assign_connected
    assign_textContent assign_disabled assign_hidden term_writeln
    term_writeUtf8 abort new_AbortController fresh_controller emit seq skip
    promise_catch aborted set_dom set_connected set_controllers
    set_streamController set_port_streams set_termOutput
    set_task_requestNewPort set_task_processStreams set_portUnreadable
    set_portUnwritable emit_all dom connected controllers streamController
    port_readable port_writable termOutputForPort termOutputForEcho
    task_requestNewPort task_processStreams portUnreadable portUnwritable log]
  in t.

(** Replaces the left-hand side of [H : l = r] by its value [n].  The
    equation [n = l] that justifies it has the value on its left: checking
    it, the kernel then unfolds the script and not the form updates nested
    in the value. *)
Ltac eval_in H :=
  lazymatch type of H with
  | ?l = ?r =>
      let n := eval_term l in
      let E := fresh "E" in
      assert (E : n = l) by exact (eq_refl n);
      rewrite <- E in H; clear E
  end.

Ltac eval_goal :=
  lazymatch goal with
  | |- ?g => let n := eval_term g in change n
  end.

(** Case analysis on a test of [H] that contains no other test. *)
Ltac split_hyp H :=
  match type of H with
  | context [if ?c then _ else _] =>
      lazymatch c with
      | context [if _ then _ else _] => fail
      | context [match _ with _ => _ end] => fail
      | _ => let E := fresh "E" in destruct c eqn:E
      end
  | context [match ?c with _ => _ end] =>
      lazymatch c with
      | context [if _ then _ else _] => fail
      | context [match _ with _ => _ end] => fail
      | _ => let E := fresh "E" in destruct c eqn:E
      end
  end.

(** All the ways [H : step ev s = Some s'] can hold, with [s'] computed. *)
Ltac step_cases H := eval_in H; repeat split_hyp H; simplify_eq.

(** ** Lists of controllers and of calls *)

Lemma aborted_insert_eq (l : list bool) (i : nat) :
  i < length l -> default false (<[i:=true]> l !! i) = true.
Proof. intros Hi. by rewrite list_lookup_insert_eq. Qed.

Lemma aborted_insert (l : list bool) (i j : nat) :
  default false (l !! i) = true -> default false (<[j:=true]> l !! i) = true.
Proof.
  intros Hi. destruct (decide (j = i)) as [->|Hne].
  - destruct (l !! i) eqn:E; [|done].
    apply aborted_insert_eq. by eapply lookup_lt_Some.
  - by rewrite list_lookup_insert_ne.
Qed.

Lemma aborted_app (l l' : list bool) (i : nat) :
  default false (l !! i) = true -> default false ((l ++ l') !! i) = true.
Proof.
  intros Hi. destruct (l !! i) eqn:E; [|done].
  by rewrite (lookup_app_l_Some _ _ _ _ E).
Qed.

Lemma ops_of_app (a : Actor) (l l' : list (Actor * Op)) :
  ops_of a (l ++ l') = ops_of a l ++ ops_of a l'.
Proof. unfold ops_of. by rewrite List.filter_app, map_app. Qed.

Lemma ops_of_other (a b : Actor) (os : list Op) :
  Actor_eqb b a = false -> ops_of a (map (pair b) os) = [].
Proof.
  intros Hne. unfold ops_of. induction os as [|o os IH]; [done|].
  cbn. by rewrite Hne.
Qed.

(** All three pipes are started with the [prevent] flags set: stopping them
    does nothing to their ends. *)
Lemma shutdown_actions_prevented (sig : nat) (c : PipeCause) :
  shutdown_actions (pipe_options sig) c = [].
Proof. by destruct c. Qed.

Ltac destruct_conjs :=
  repeat match goal with H : _ /\ _ |- _ => destruct H end.

Ltac log_facts :=
  unfold display; fields;
  rewrite ?ops_of_app, ?List.filter_app, ?map_app;
  cbn [List.filter is_display is_shutdown map snd fst app ops_of Actor_eqb];
  rewrite ?app_nil_r.

Lemma signal_pipe_options (sig : nat) : signal (pipe_options sig) = sig.
Proof. reflexivity. Qed.

Ltac unfold_inv :=
  unfold read_task_ok, write_task_ok, phase_ok, session_over, echo_ok,
    no_shutdown, aborted in *.

Ltac list_facts :=
  rewrite ?length_insert, ?length_app, ?signal_pipe_options in *; cbn [length] in *;
  repeat match goal with
  | |- default false (<[?i:=true]> _ !! ?i) = true => apply aborted_insert_eq
  | |- default false (<[_:=true]> _ !! _) = true => apply aborted_insert
  | |- default false ((_ ++ _) !! _) = true => apply aborted_app
  end.

Lemma Inv_initial (d : Dom) : Inv (initial d).
Proof.
  split; unfold_inv; cbn; auto. by exists [].
Qed.


Ltac known_options :=
  repeat match goal with
  | H : ?echo = pipe_options (signal ?echo) |- _ =>
      is_var echo; destruct echo; cbn [signal] in *
  | H : Build_PipeOptions _ _ _ _ = pipe_options _ |- _ =>
      unfold pipe_options in H; simplify_eq
  end;
  change (Build_PipeOptions ?i true true true) with (pipe_options i) in *.

Ltac tasks_solver :=
  repeat case_match; simplify_eq;
  repeat match goal with H : _ /\ _ |- _ => destruct H end; simplify_eq;
  repeat split; list_facts; try done; try lia.

Ltac log_solver :=
  rewrite ?List.filter_app, ?ops_of_app, ?map_app;
  rewrite ?shutdown_actions_prevented;
  cbn [List.filter is_shutdown is_display map snd fst ops_of Actor_eqb app];
  rewrite ?app_nil_r.

Lemma Inv_step (ev : Event) (s s' : State) :
  Inv s -> step ev s = Some s' -> Inv s'.
Proof.
  intros [I1 I2 I3 I4 I5 I6] H.
  unfold_inv. destruct_state s.
  destruct ev; step_cases H.
  all: split; unfold_inv; fields.
  all: try done.
  all: try (list_facts; lia).
  all: try (lazymatch goal with
            | |- runs_ok _ => fail
            | |- List.filter _ _ = _ => fail
            | _ => idtac
            end;
            tasks_solver; fail).
  all: try (lazymatch goal with |- List.filter _ _ = _ => idtac end;
            repeat case_match; simplify_eq;
            repeat match goal with H : _ /\ _ |- _ => destruct H end;
            known_options; log_solver; done).
  all: unfold runs_ok in *; fields; destruct I5 as [ids Hids].
  all: rewrite ?ops_of_app, ?Hids.
  all: try (rewrite ops_of_other by reflexivity).
  all: cbn [ops_of List.filter map fst snd Actor_eqb app]; rewrite ?app_nil_r.
  all: try (by exists ids).
  all: repeat case_match; simplify_eq;
       repeat match goal with H : _ /\ _ |- _ => destruct H end; simplify_eq.
  all: try (exists ids; cbn [progress firstn run_ops];
            rewrite <- ?app_assoc; reflexivity).
  all: try (exists (ids ++ [sc]); rewrite map_app, concat_app;
            cbn [progress firstn run_ops map concat];
            rewrite <- ?app_assoc, ?app_nil_r; reflexivity).
Qed.

Lemma reachable_Inv (s : State) : reachable s -> Inv s.
Proof.
  induction 1 as [d|ev s s' _ IH Hstep]; [apply Inv_initial|].
  by apply (Inv_step ev s).
Qed.

Lemma exec_reachable (evs : list Event) (s s' : State) :
  reachable s -> exec evs s = Some s' -> reachable s'.
Proof.
  revert s. induction evs as [|ev evs IH]; intros s Hs H; cbn in H.
  - by simplify_eq.
  - destruct (step ev s) as [s1|] eqn:E; [|done].
    apply (IH s1); [|done]. by apply (reachable_step ev s).
Qed.

Lemma reachable_exec (d : Dom) (evs : list Event) (s : State) :
  exec evs (initial d) = Some s -> reachable s.
Proof. apply exec_reachable, reachable_initial. Qed.


(** ** [parseInt] on some inputs *)

Example parseInt_115200 : parseInt "115200" = Finite false 115200.
Proof. reflexivity. Qed.

Example parseInt_padded : parseInt "  +96px" = Finite false 96.
Proof. reflexivity. Qed.

Example parseInt_hex : parseInt "0x1F" = Finite false 31.
Proof. reflexivity. Qed.

Example parseInt_custom : parseInt "custom" = NaN.
Proof. reflexivity. Qed.

Example parseInt_empty : parseInt "" = NaN.
Proof. reflexivity. Qed.


(** A no-break space (U+00A0) and a byte order mark (U+FEFF) are white
    space. *)
Example parseInt_nbsp : parseInt (String "194" (String "160" "42")) = Finite false 42.
Proof. reflexivity. Qed.

Example parseInt_bom :
  parseInt (String "239" (String "187" (String "191" " -42px"))) = Finite true 42.
Proof. reflexivity. Qed.

(** Beyond 53 bits the integer is rounded to a double. *)
Example parseInt_rounded :
  parseInt "9007199254740993" = Finite false 9007199254740992.
Proof. vm_compute. reflexivity. Qed.

Example parseInt_infinite :
  parseInt ("1" +:+ string_of_list_ascii (repeat "0"%char 309)) = Infinity false.
Proof. vm_compute. reflexivity. Qed.

(** ** The run of [processStreams] *)

Lemma closing_reachable : reachable closing.
Proof.
  apply (reachable_exec form0 (connect ++ disconnect)).
  vm_compute. reflexivity.
Qed.

Lemma run_segment_nil (a : nat) (l : list Op) : skipn a (firstn a l) = [].
Proof. apply drop_ge. rewrite length_take. lia. Qed.

Lemma run_segment_app (a b c : nat) (l : list Op) :
  a <= b -> b <= c ->
  skipn a (firstn b l) ++ skipn b (firstn c l) = skipn a (firstn c l).
Proof.
  intros Hab Hbc.
  rewrite <- (take_drop b (firstn c l)) at 2.
  rewrite take_take, Nat.min_l by done.
  destruct (decide (a <= length (firstn b l))) as [Hle|Hgt].
  - by rewrite drop_app_le.
  - rewrite (drop_ge (firstn b l)) by lia.
    rewrite drop_app_ge by lia.
    rewrite drop_drop. rewrite length_take in *.
    rewrite (drop_ge (firstn c l)); [|rewrite length_take; lia].
    rewrite (drop_ge (firstn c l)); [done|rewrite length_take; lia].
Qed.

Lemma teardown_step (ev : Event) (s s' : State) :
  step ev s = Some s' ->
  ev <> OpenSettles Fulfilled ->
  no_pump_rejected s ->
  no_pump_rejected s' /\
  streamController s' = streamController s /\
  progress (task_processStreams s) <= progress (task_processStreams s') /\
  ops_of in_processStreams (log s') =
  ops_of in_processStreams (log s) ++
  skipn (progress (task_processStreams s))
    (firstn (progress (task_processStreams s')) (run_ops (streamController s))).
Proof.
  intros Hstep Hev [Hr Hw]. unfold no_pump_rejected. destruct_state s.
  destruct ev; step_cases Hstep; fields.
  all: rewrite ?ops_of_app, ?ops_of_other, ?run_segment_nil, ?app_nil_r by done.
  all: cbn [progress].
  all: repeat split; try done; try lia.
  all: try (by edestruct Hr); try (by edestruct Hw).
  all: cbn; by rewrite <- ?app_assoc.
Qed.

(** C4: in a run without a new start, [processStreams] only moves forward,
    and the calls it makes are those of lines 146 to 159 between the place
    where it stood and the place where it stands, in this order and with
    nothing in between: the await of the read pump returns, the shared
    controller is aborted, the await of the write pump returns, [port.close]
    is called, its await returns, [connected] and the elements are reset and
    [<DISCONNECTED>] is written.  Each step is taken: once the read pump has
    returned the continuation runs, aborts the shared controller and awaits
    the write pump; once that has returned it calls [port.close]; when the
    close fulfils, the reset and the line follow.  And no step is taken
    early: as long as the read pump has not returned, [processStreams] stays
    at its first await whatever happens, and as long as the write pump has
    not returned it stays at the second. *)
Theorem teardown_order (evs : list Event) (s s' : State) :
  exec evs s = Some s' ->
  ~ In (OpenSettles Fulfilled) evs ->
  no_pump_rejected s ->
  streamController s' = streamController s /\
  progress (task_processStreams s) <= progress (task_processStreams s') /\
  ops_of in_processStreams (log s') =
    ops_of in_processStreams (log s) ++
    skipn (progress (task_processStreams s))
      (firstn (progress (task_processStreams s')) (run_ops (streamController s))) /\
  (task_processStreams s' = C_await_portUnreadable ->
   match portUnreadable s' with
   | R_settled _ =>
       exists s'',
         step ResumeProcessStreams s' = Some s'' /\
         task_processStreams s'' = C_await_portUnwritable /\
         log s'' =
           log s' ++
           [(in_processStreams, Resumed await_portUnreadable);
            (in_processStreams, AbortCall (streamController s'))] /\
         (streamController s' < length (controllers s') ->
          aborted s'' (streamController s') = true)
   | _ =>
       forall ev s'',
         step ev s' = Some s'' ->
         ev <> OpenSettles Fulfilled ->
         task_processStreams s'' = C_await_portUnreadable
   end) /\
  (task_processStreams s' = C_await_portUnwritable ->
   match portUnwritable s' with
   | W_settled _ =>
       exists s'',
         step ResumeProcessStreams s' = Some s'' /\
         task_processStreams s'' = C_await_close /\
         log s'' =
           log s' ++
           [(in_processStreams, Resumed await_portUnwritable);
            (in_processStreams, Close)]
   | _ =>
       forall ev s'',
         step ev s' = Some s'' ->
         ev <> OpenSettles Fulfilled ->
         task_processStreams s'' = C_await_portUnwritable
   end) /\
  (task_processStreams s' = C_await_close ->
   exists s'',
     step (CloseSettles Fulfilled) s' = Some s'' /\
     task_processStreams s'' = C_settled Fulfilled /\
     connected s'' = false /\
     ui_disconnected (dom s'') /\
     display s'' = display s' ++ [Writeln "<DISCONNECTED>"] /\
     ops_of in_processStreams (log s'') =
       ops_of in_processStreams (log s') ++ skipn 5 (run_ops (streamController s'))).
Proof.
  intros Hex Hin Hpumps.
  assert (no_pump_rejected s' /\
          streamController s' = streamController s /\
          progress (task_processStreams s) <= progress (task_processStreams s') /\
          ops_of in_processStreams (log s') =
            ops_of in_processStreams (log s) ++
            skipn (progress (task_processStreams s))
              (firstn (progress (task_processStreams s'))
                 (run_ops (streamController s))))
    as ([Hr Hw] & Hsc & Hle & Hops).
  { clear -Hex Hin Hpumps. revert s Hex Hin Hpumps.
    induction evs as [|ev evs IH]; intros s Hex Hin Hpumps; cbn [exec] in Hex.
    - simplify_eq. by rewrite run_segment_nil, app_nil_r.
    - destruct (step ev s) as [s1|] eqn:Hstep; [|done].
      destruct (teardown_step ev s s1 Hstep) as (Hp1 & Hsc1 & Hle1 & Hops1);
        [by intros ->; apply Hin; left|done|].
      destruct (IH s1 Hex) as (Hp2 & Hsc2 & Hle2 & Hops2);
        [by intros ?; apply Hin; right|done|].
      split; [done|]. split; [congruence|]. split; [lia|].
      rewrite Hops2, Hops1, Hsc1, <- app_assoc. f_equal.
      by apply run_segment_app. }
  do 3 (split; [done|]). clear Hex Hin Hpumps Hsc Hle Hops s evs.
  destruct_state s'. split; [|split].
  - intros ->. destruct t_read as [|o|o].
    + intros ev s'' Hstep Hev. destruct ev; step_cases Hstep; fields; done.
    + intros ev s'' Hstep Hev. destruct ev; step_cases Hstep; fields; done.
    + destruct o as [|e]; [|by destruct (Hr e)].
      eexists. split; [reflexivity|]. eval_goal.
      do 2 (split; [by rewrite <- ?app_assoc|]).
      apply aborted_insert_eq.
  - intros ->. destruct t_write as [|o echo p|echo p|o].
    + intros ev s'' Hstep Hev. destruct ev; step_cases Hstep; fields; done.
    + intros ev s'' Hstep Hev. destruct ev; step_cases Hstep; fields; done.
    + intros ev s'' Hstep Hev. destruct ev; step_cases Hstep; fields; done.
    + destruct o as [|e]; [|by destruct (Hw e)].
      eexists. split; [reflexivity|]. eval_goal.
      split; [done|]. by rewrite <- ?app_assoc.
  - intros ->. eexists. split; [reflexivity|].
    unfold display, ui_disconnected. eval_goal.
    rewrite !ops_of_app, !List.filter_app, !map_app. cbn.
    rewrite !app_nil_r. repeat split; try reflexivity.
    by rewrite <- !app_assoc.
Qed.

(** ** Closing the port *)

(** After a connect and a disconnect on [form0] whose [port.close] rejects,
    nothing more is written to the terminal, [connected] is [true] and the
    button still reads "Disconnect". *)
Example close_failure_skips_reset :
  observe (connect ++ disconnect ++ [CloseSettles (Rejected NetworkError)]) =
  Some (true, C_settled (Rejected NetworkError), R_settled Fulfilled,
        W_settled Fulfilled, "Disconnect", [Writeln "<CONNECTED>"]).
Proof. vm_compute. reflexivity. Qed.

Lemma after_throw_step (ev : Event) (s s' : State) (e : Error) :
  step ev s = Some s' ->
  task_processStreams s = C_settled (Rejected e) ->
  ev <> OpenSettles Fulfilled ->
  task_processStreams s' = C_settled (Rejected e) /\
  ops_of in_processStreams (log s') = ops_of in_processStreams (log s).
Proof.
  intros Hstep Ht Hev. destruct_state s. subst t_streams.
  destruct ev; step_cases Hstep; fields; try done.
  all: rewrite ?ops_of_app, ?ops_of_other, ?app_nil_r by done; try done.
Qed.

(** C2: a rejection of [port.close] is not handled.  The exception leaves
    [processStreams] at line 149: nothing is written to the terminal or done
    at all, [connected] and every element stay as they are, the lines 151 to
    159 are skipped, and as long as no new session starts [processStreams]
    makes no further call. *)
Theorem close_failure_unhandled (s s' : State) (e : Error) :
  step (CloseSettles (Rejected e)) s = Some s' ->
  task_processStreams s = C_await_close /\
  log s' = log s /\
  display s' = display s /\
  dom s' = dom s /\
  connected s' = connected s /\
  task_processStreams s' = C_settled (Rejected e) /\
  forall evs s'',
    exec evs s' = Some s'' ->
    ~ In (OpenSettles Fulfilled) evs ->
    task_processStreams s'' = C_settled (Rejected e) /\
    ops_of in_processStreams (log s'') = ops_of in_processStreams (log s').
Proof.
  intros Hstep.
  assert (task_processStreams s = C_await_close /\ log s' = log s /\
          dom s' = dom s /\ connected s' = connected s /\
          task_processStreams s' = C_settled (Rejected e))
    as (Ht & Hlog & Hdom & Hc & Ht').
  { destruct_state s. by step_cases Hstep. }
  split; [done|]. split; [done|]. split; [by unfold display; rewrite Hlog|].
  do 3 (split; [done|]). clear -Ht'.
  intros evs. revert s' Ht'.
  induction evs as [|ev evs IH]; intros s' Ht' s'' Hex Hin; cbn [exec] in Hex.
  - by simplify_eq.
  - destruct (step ev s') as [s1|] eqn:Hstep; [|done].
    destruct (after_throw_step ev s' s1 e Hstep Ht') as [Ht1 Hl1];
      [by intros ->; apply Hin; left|].
    destruct (IH s1 Ht1 s'' Hex) as [Ht2 Hl2]; [by intros ?; apply Hin; right|].
    split; [done|congruence].
Qed.

(** ** The read pump *)

Lemma not_AbortError (e : Error) :
  name e <> "AbortError" -> negb (name e =? "AbortError") = true.
Proof. intros H. by apply negb_true_iff, String.eqb_neq. Qed.

Lemma is_AbortError (e : Error) :
  name e = "AbortError" -> negb (name e =? "AbortError") = false.
Proof. intros H. by apply negb_false_iff, String.eqb_eq. Qed.

(** C1, as stated, fails: after a buffer overrun reported by the read pipe,
    with the port still readable, the read pump has written the annotation
    and is piping again; [processStreams] still awaits it. *)
Lemma read_error_reenters_loop :
  observe (connect ++ [PipeSettles ReadPipe (SourceErrored BufferOverrunError)]) =
  Some (true, C_await_portUnreadable, R_piping (pipe_options 1),
        W_piping (pipe_options 1) (pipe_options 2) Pending, "Disconnect",
        [Writeln "<CONNECTED>"; Writeln "<READ ERROR: Buffer overrun>"]).
Proof. vm_compute. reflexivity. Qed.

(** C1, amended: a failure of the read pipe that is not an [AbortError] is
    written to the terminal as [<READ ERROR: message>]; then the loop test
    is made again.  If the port is still readable and the controller is not
    aborted the pump calls [pipeTo] again; otherwise it returns, and then
    [processStreams] can resume, which aborts the controller and goes on to
    await the write pump. *)
Theorem read_failure_reported (s s' : State) (c : PipeCause) (e : Error) :
  reachable s ->
  pipe_outcome c = Rejected e ->
  name e <> "AbortError" ->
  step (PipeSettles ReadPipe c) s = Some s' ->
  display s' = display s ++ [Writeln ("<READ ERROR: " +:+ message e +:+ ">")] /\
  (port_readable s && negb (aborted s (streamController s)) = true ->
   portUnreadable s' = R_piping (pipe_options (streamController s)) /\
   ops_of in_processReadableStream (log s') =
   ops_of in_processReadableStream (log s) ++
   [Writeln ("<READ ERROR: " +:+ message e +:+ ">");
    PipeTo ReadPipe (pipe_options (streamController s))]) /\
  (port_readable s && negb (aborted s (streamController s)) = false ->
   portUnreadable s' = R_settled Fulfilled /\
   exists s'',
     step ResumeProcessStreams s' = Some s'' /\
     task_processStreams s'' = C_await_portUnwritable /\
     aborted s'' (streamController s'') = true).
Proof.
  intros Hs Hout Hne Hstep.
  pose proof (reachable_Inv s Hs) as [I1 I2 I3 I4 _ _].
  assert (Hc : may_stop s (pipe_options (streamController s)) c = true).
  { destruct c; try done. cbn in Hout. by simplify_eq. }
  apply not_AbortError in Hne.
  unfold_inv. destruct_state s.
  eval_in Hstep. rewrite Hout, Hne in Hstep.
  destruct t_read as [|o|]; try done. subst o.
  eval_in Hc. rewrite Hc in Hstep.
  rewrite shutdown_actions_prevented in Hstep. cbn [map app] in Hstep.
  destruct t_streams as [| | | |[|?]];
    repeat match goal with H : _ /\ _ |- _ => destruct H end; try done.
  repeat split_hyp Hstep; simplify_eq.
  all: unfold display; fields.
  all: rewrite ?ops_of_app, ?List.filter_app, ?map_app;
       cbn [List.filter is_display map snd fst app ops_of Actor_eqb].
  all: rewrite ?app_nil_r.
  all: split; [done|]; split; intros Hloop; try done; split; [done|].
  all: try (by rewrite <- app_assoc).
  all: eexists; split; [reflexivity|].
  all: eval_goal; split; [done|]; by apply aborted_insert_eq.
Qed.

(** ** The write pump *)

(** The loop test of [processWritableStream] when line 184 returns. *)
Lemma write_loop_test (s1 s2 : State) :
  step ResumeProcessWritableStream s1 = Some s2 ->
  (port_writable s1 && negb (aborted s1 (streamController s1)) = true ->
   portUnwritable s2 =
   W_piping (pipe_options (streamController s1))
     (pipe_options (fresh_controller s1)) Pending) /\
  (port_writable s1 && negb (aborted s1 (streamController s1)) = false ->
   portUnwritable s2 = W_settled Fulfilled /\ log s2 = log s1).
Proof.
  intros Hstep. destruct_state s1.
  eval_in Hstep. destruct t_write as [| | echo [|out]|]; try done.
  destruct out; cbn in Hstep.
  all: eval_goal; repeat split_hyp Hstep; simplify_eq; fields.
  all: split; intros; simplify_eq; done.
Qed.

(** C6: a failure of the write pipe that is not an [AbortError] is written
    to the terminal as [<WRITE ERROR: message>]; the pump aborts its echo
    controller and awaits the echo pipe; the session goes on
    ([processStreams] and the read pump are where they were, the shared
    controller is untouched).  When the pump resumes it starts the next
    iteration if the port is writable and the shared controller is not
    aborted, and returns otherwise. *)
Theorem write_failure_reported (s s' : State) (c : PipeCause) (e : Error) :
  reachable s ->
  pipe_outcome c = Rejected e ->
  name e <> "AbortError" ->
  step (PipeSettles WritePipe c) s = Some s' ->
  display s' = display s ++ [Writeln ("<WRITE ERROR: " +:+ message e +:+ ">")] /\
  connected s' = connected s /\
  task_processStreams s' = task_processStreams s /\
  portUnreadable s' = portUnreadable s /\
  streamController s' = streamController s /\
  aborted s' (streamController s') = aborted s (streamController s) /\
  (exists echo p, portUnwritable s' = W_await_echo echo p) /\
  forall s1 s2,
    step ResumeProcessWritableStream s1 = Some s2 ->
    (port_writable s1 && negb (aborted s1 (streamController s1)) = true ->
     portUnwritable s2 =
     W_piping (pipe_options (streamController s1))
       (pipe_options (fresh_controller s1)) Pending) /\
    (port_writable s1 && negb (aborted s1 (streamController s1)) = false ->
     portUnwritable s2 = W_settled Fulfilled /\ log s2 = log s1).
Proof.
  intros Hs Hout Hne Hstep.
  pose proof (reachable_Inv s Hs) as [I1 I2 I3 I4 _ _].
  assert (Hc : may_stop s (pipe_options (streamController s)) c = true).
  { destruct c; try done. cbn in Hout. by simplify_eq. }
  apply not_AbortError in Hne.
  unfold_inv. destruct_state s.
  eval_in Hstep. rewrite Hout, Hne in Hstep.
  destruct t_write as [|o echo p| |]; try done.
  destruct I3 as (-> & Hecho & Hlt & Hsc).
  eval_in Hc. rewrite Hc, shutdown_actions_prevented in Hstep.
  cbn [map app] in Hstep. simplify_eq. log_facts.
  do 5 (split; [done|]). split.
  { by rewrite list_lookup_insert_ne. }
  split; [by eauto|]. apply write_loop_test.
Qed.


(** ** The echo branch *)

(** While the write pump awaits the echo pipe after an abort of the shared
    controller, nothing but its own resumption moves it. *)
Lemma await_echo_step
    (ev : Event) (s1 s2 : State) (echo : PipeOptions) (p : Promise) :
  reachable s1 ->
  portUnwritable s1 = W_await_echo echo p ->
  aborted s1 (streamController s1) = true ->
  ev <> ResumeProcessWritableStream ->
  step ev s1 = Some s2 ->
  (exists p', portUnwritable s2 = W_await_echo echo p') /\
  aborted s2 (streamController s2) = true /\
  ops_of in_processWritableStream (log s2) =
  ops_of in_processWritableStream (log s1).
Proof.
  intros Hs Hw Hab Hev Hstep.
  pose proof (reachable_Inv s1 Hs) as [I1 I2 I3 I4 _ _].
  unfold_inv. destruct_state s1. subst t_write.
  destruct t_streams as [| | | |[|?]]; destruct_conjs; try done.
  all: destruct ev; try done; step_cases Hstep; fields.
  all: rewrite ?shutdown_actions_prevented; log_facts.
  all: try (rewrite ops_of_other by reflexivity; rewrite ?app_nil_r).
  all: repeat split; eauto; list_facts; try done.
Qed.

Lemma await_echo_exec
    (evs : list Event) (s1 s2 : State) (echo : PipeOptions) (p : Promise) :
  reachable s1 ->
  portUnwritable s1 = W_await_echo echo p ->
  aborted s1 (streamController s1) = true ->
  ~ In ResumeProcessWritableStream evs ->
  exec evs s1 = Some s2 ->
  (exists p', portUnwritable s2 = W_await_echo echo p') /\
  aborted s2 (streamController s2) = true /\
  ops_of in_processWritableStream (log s2) =
  ops_of in_processWritableStream (log s1).
Proof.
  revert s1 p. induction evs as [|ev evs IH]; intros s1 p Hs Hw Hab Hin Hex.
  - cbn in Hex. simplify_eq. eauto.
  - cbn in Hex. destruct (step ev s1) as [s1'|] eqn:Hstep; [|done].
    destruct (await_echo_step ev s1 s1' echo p) as ([p' Hw'] & Hab' & Hlog');
      [done|done|done|by intros ->; apply Hin; left|done|].
    destruct (IH s1' p') as (Hw2 & Hab2 & Hlog2);
      [by eapply reachable_step|done|done|by intros ?; apply Hin; right|done|].
    repeat split; [done|done|congruence].
Qed.

Lemma no_shutdown_In (l : list (Actor * Op)) (q : Pipe) (a : StreamAction) :
  List.filter is_shutdown l = [] -> ~ In (in_platform, Shutdown q a) l.
Proof.
  intros Hl Hin.
  assert (In (in_platform, Shutdown q a) (List.filter is_shutdown l)) as Hin'
    by (apply List.filter_In; by split).
  by rewrite Hl in Hin'.
Qed.

(** The write pipe stops on the abort of the shared controller. *)
Lemma write_cancelled (s s1 : State) (o echo : PipeOptions) (p : Promise) :
  reachable s ->
  portUnwritable s = W_piping o echo p ->
  step (PipeSettles WritePipe SignalAborted) s = Some s1 ->
  log s1 = log s ++ [(in_processWritableStream, AbortCall (signal echo))] /\
  aborted s1 (signal echo) = true /\
  portUnwritable s1 = W_await_echo echo p /\
  aborted s1 (streamController s1) = true.
Proof.
  intros Hs Hw Hstep.
  pose proof (reachable_Inv s Hs) as [I1 I2 I3 I4 _ _].
  unfold_inv. destruct_state s. subst t_write.
  destruct I3 as (-> & Hecho & Hlt & Hne).
  eval_in Hstep. cbn [pipe_outcome] in Hstep.
  rewrite (is_AbortError AbortError eq_refl) in Hstep.
  rewrite shutdown_actions_prevented, signal_pipe_options in Hstep.
  destruct (default false (ctls !! sc)) eqn:Hab; [|done].
  simplify_eq. fields. cbn [map app]. rewrite app_nil_r.
  repeat split; list_facts; try done.
Qed.

(** ... and then the pump returns when it resumes, having made no call. *)
Lemma write_cancelled_returns
    (evs : list Event) (s1 s2 s3 : State) (echo : PipeOptions) (p : Promise) :
  reachable s1 ->
  portUnwritable s1 = W_await_echo echo p ->
  aborted s1 (streamController s1) = true ->
  ~ In ResumeProcessWritableStream evs ->
  exec evs s1 = Some s2 ->
  step ResumeProcessWritableStream s2 = Some s3 ->
  portUnwritable s3 = W_settled Fulfilled /\
  ops_of in_processWritableStream (log s3) =
  ops_of in_processWritableStream (log s1).
Proof.
  intros Hs1 Hw1 Hab1 Hin Hex Hres.
  destruct (await_echo_exec evs s1 s2 echo p) as ([p' Hw2] & Hab2 & Hlog2);
    [done..|].
  destruct (write_loop_test s2 s3 Hres) as [_ Hexit].
  destruct Hexit as [Hw3 Hlog3]; [by rewrite Hab2, andb_false_r|].
  split; [done|]. by rewrite Hlog3.
Qed.

(** ... which it can: the echo pipe stops on the abort of its controller. *)
Lemma write_cancelled_can_return (s1 : State) (echo : PipeOptions) (p : Promise) :
  reachable s1 ->
  portUnwritable s1 = W_await_echo echo p ->
  aborted s1 (signal echo) = true ->
  aborted s1 (streamController s1) = true ->
  exists evs s3,
    exec evs s1 = Some s3 /\ portUnwritable s3 = W_settled Fulfilled.
Proof.
  intros Hs1 Hw1 Hecho1 Hab1. destruct p as [|out].
  - destruct (step (PipeSettles EchoPipe SignalAborted) s1) as [s2|] eqn:Hecho2.
    2:{ exfalso. unfold step, pending_echo, may_stop in Hecho2.
        rewrite Hw1, Hecho1 in Hecho2. done. }
    destruct (await_echo_step (PipeSettles EchoPipe SignalAborted) s1 s2 echo Pending
                Hs1 Hw1 Hab1 ltac:(discriminate) Hecho2)
      as ([p' Hw2] & Hab2 & _).
    assert (Hp' : p' = Settled (Rejected AbortError)).
    { clear -Hecho2 Hw1 Hw2. destruct_state s1. subst.
      step_cases Hecho2; fields; by simplify_eq. }
    subst p'.
    destruct (step ResumeProcessWritableStream s2) as [s3|] eqn:Hres.
    2:{ exfalso. unfold step in Hres. by rewrite Hw2 in Hres. }
    destruct (write_loop_test s2 s3 Hres) as [_ Hexit].
    destruct Hexit as [Hw3 _]; [by rewrite Hab2, andb_false_r|].
    exists [PipeSettles EchoPipe SignalAborted; ResumeProcessWritableStream], s3.
    cbn [exec]. by rewrite Hecho2, Hres.
  - destruct (step ResumeProcessWritableStream s1) as [s3|] eqn:Hres.
    2:{ exfalso. unfold step in Hres. by rewrite Hw1 in Hres. }
    destruct (write_loop_test s1 s3 Hres) as [_ Hexit].
    destruct Hexit as [Hw3 _]; [by rewrite Hab1, andb_false_r|].
    exists [ResumeProcessWritableStream], s3.
    cbn [exec]. by rewrite Hres.
Qed.

(** C8: in every iteration of the write pump the echo pipe has a controller
    of its own, created in that iteration and different from the shared one,
    and is started with the three [prevent] flags.  No pipe has ever closed,
    aborted or cancelled a stream, and the echo pipe does not when it stops,
    whatever the cause.  When the write pipe stops on the abort of the shared
    controller, the pump logs nothing but the abort of the echo controller,
    cannot resume before the echo pipe has settled, and when it resumes,
    whatever the echo pipe settled with, it returns; and it can get there. *)
Theorem echo_is_side_tap (s : State) (o echo : PipeOptions) (p : Promise) :
  reachable s ->
  portUnwritable s = W_piping o echo p ->
  (forall s0,
     port_writable s0 && negb (aborted s0 (streamController s0)) = true ->
     portUnwritable (processWritableStream s0) =
     W_piping (pipe_options (streamController s0))
       (pipe_options (length (controllers s0))) Pending /\
     controllers (processWritableStream s0) = controllers s0 ++ [false]) /\
  echo = pipe_options (signal echo) /\
  signal echo <> streamController s /\
  o = pipe_options (streamController s) /\
  (forall q a, ~ In (in_platform, Shutdown q a) (log s)) /\
  (forall c s',
     step (PipeSettles EchoPipe c) s = Some s' ->
     log s' = log s /\
     termOutputForEcho s' = termOutputForEcho s /\
     termOutputForPort s' = termOutputForPort s /\
     portUnwritable s' = W_piping o echo (Settled (pipe_outcome c))) /\
  forall s1,
    step (PipeSettles WritePipe SignalAborted) s = Some s1 ->
    log s1 = log s ++ [(in_processWritableStream, AbortCall (signal echo))] /\
    aborted s1 (signal echo) = true /\
    portUnwritable s1 = W_await_echo echo p /\
    (p = Pending -> step ResumeProcessWritableStream s1 = None) /\
    (forall evs s2 s3,
       ~ In ResumeProcessWritableStream evs ->
       exec evs s1 = Some s2 ->
       step ResumeProcessWritableStream s2 = Some s3 ->
       portUnwritable s3 = W_settled Fulfilled /\
       ops_of in_processWritableStream (log s3) =
       ops_of in_processWritableStream (log s1)) /\
    exists evs s3,
      exec evs s1 = Some s3 /\ portUnwritable s3 = W_settled Fulfilled.
Proof.
  intros Hs Hw.
  pose proof (reachable_Inv s Hs) as [I1 I2 I3 I4 _ I6].
  split.
  { intros s0 Hloop. destruct_state s0. eval_goal.
    eval_in Hloop. by rewrite Hloop. }
  unfold write_task_ok, echo_ok in I3. rewrite Hw in I3.
  destruct I3 as (Ho & Hecho & Hlt & Hne).
  do 3 (split; [done|]).
  split; [intros q a; by apply no_shutdown_In|].
  split.
  { intros c s' Hstep. destruct_state s. subst t_write.
    rewrite Hecho in Hstep. destruct p; step_cases Hstep; fields.
    all: rewrite shutdown_actions_prevented; cbn [map]; rewrite app_nil_r.
    all: by rewrite <- Hecho. }
  intros s1 Hstep.
  assert (Hs1 : reachable s1) by (by eapply reachable_step).
  destruct (write_cancelled s s1 o echo p Hs Hw Hstep)
    as (Hlog & Hecho1 & Hw1 & Hab1).
  do 3 (split; [done|]).
  split.
  { intros ->. unfold step. by rewrite Hw1. }
  split.
  { intros evs s2 s3. by apply (write_cancelled_returns evs s1 s2 s3 echo p). }
  by apply (write_cancelled_can_return s1 echo p).
Qed.

(** ** Cancellation *)

(** C9: an [AbortError] from any of the three pipes writes nothing to the
    terminal and leaves [processStreams] where it is; no pump promise is ever
    rejected.  When the read pipe stops on the abort of its signal the read
    pump returns, having logged nothing; when the write pipe does, the
    write pump aborts its echo controller and, once resumed, returns without
    another call. *)
Theorem cancellation_is_silent
    (s s' : State) (p : Pipe) (c : PipeCause) (e : Error) :
  reachable s ->
  pipe_outcome c = Rejected e ->
  name e = "AbortError" ->
  step (PipeSettles p c) s = Some s' ->
  display s' = display s /\
  task_processStreams s' = task_processStreams s /\
  (forall e', portUnreadable s' <> R_settled (Rejected e')) /\
  (forall e', portUnwritable s' <> W_settled (Rejected e')) /\
  (p = ReadPipe -> c = SignalAborted ->
   portUnreadable s' = R_settled Fulfilled /\ log s' = log s) /\
  (p = WritePipe ->
   exists echo q,
     portUnwritable s' = W_await_echo echo q /\
     log s' = log s ++ [(in_processWritableStream, AbortCall (signal echo))]) /\
  (p = WritePipe -> c = SignalAborted ->
   forall evs s2 s3,
     ~ In ResumeProcessWritableStream evs ->
     exec evs s' = Some s2 ->
     step ResumeProcessWritableStream s2 = Some s3 ->
     portUnwritable s3 = W_settled Fulfilled /\
     ops_of in_processWritableStream (log s3) =
     ops_of in_processWritableStream (log s')).
Proof.
  intros Hs Hout Hab Hstep.
  assert (Hlast : p = WritePipe -> c = SignalAborted ->
    forall evs s2 s3,
      ~ In ResumeProcessWritableStream evs ->
      exec evs s' = Some s2 ->
      step ResumeProcessWritableStream s2 = Some s3 ->
      portUnwritable s3 = W_settled Fulfilled /\
      ops_of in_processWritableStream (log s3) =
      ops_of in_processWritableStream (log s')).
  { intros -> -> evs s2 s3.
    assert (exists o echo q, portUnwritable s = W_piping o echo q)
      as (o & echo & q & Hw).
    { unfold step in Hstep. destruct (portUnwritable s); try done. eauto. }
    destruct (write_cancelled s s' o echo q Hs Hw Hstep) as (_ & _ & Hw' & Hab').
    apply (write_cancelled_returns evs s' s2 s3 echo q); try done.
    by eapply reachable_step. }
  revert Hlast. match goal with |- ?Q -> _ => generalize Q end.
  intros Q HQ.
  pose proof (reachable_Inv s' (reachable_step _ _ _ Hs Hstep)) as [_ I2' I3' _ _ _].
  assert (Hrej : (forall e', portUnreadable s' <> R_settled (Rejected e')) /\
                 (forall e', portUnwritable s' <> W_settled (Rejected e'))).
  { unfold read_task_ok, write_task_ok in *.
    split; intros e' He'; rewrite He' in *; done. }
  clear I2' I3'. destruct Hrej as [Hr Hw].
  pose proof (reachable_Inv s Hs) as [I1 I2 I3 I4 _ _].
  unfold_inv. destruct_state s.
  destruct c; cbn in Hout, Hab; simplify_eq.
  all: apply is_AbortError in Hab.
  all: destruct p; eval_in Hstep; cbn [pipe_outcome] in Hstep.
  all: rewrite ?Hab in Hstep.
  all: repeat split_hyp Hstep; simplify_eq.
  all: destruct_conjs; simplify_eq; known_options.
  all: rewrite ?shutdown_actions_prevented in *; cbn [map app] in *.
  all: log_facts.
  all: rewrite ?signal_pipe_options in *.
  all: try match goal with
       | E1 : default false ?x = true,
         E : _ && negb (default false ?x) = true |- _ =>
           rewrite E1, andb_false_r in E; done
       end.
  all: repeat split; try done; eauto.
Qed.

(** ** Echo *)

(** Only the user sets the echo checkbox. *)
Lemma echo_checkbox_step (ev : Event) (s s' : State) :
  (forall b, ev <> SetChecked echoCheckbox b) ->
  step ev s = Some s' ->
  checked (el_echoCheckbox (dom s')) = checked (el_echoCheckbox (dom s)).
Proof.
  intros Hev Hstep. destruct_state s.
  destruct ev; step_cases Hstep; fields; try done.
  all: try (destruct id; try done; by destruct (Hev b)).
Qed.

Lemma echo_checkbox_exec (evs : list Event) (s s' : State) :
  (forall b, ~ In (SetChecked echoCheckbox b) evs) ->
  exec evs s = Some s' ->
  checked (el_echoCheckbox (dom s')) = checked (el_echoCheckbox (dom s)).
Proof.
  revert s. induction evs as [|ev evs IH]; intros s Hin Hex; cbn in Hex.
  - by simplify_eq.
  - destruct (step ev s) as [s1|] eqn:Hstep; [|done].
    rewrite (IH s1); [|intros b ?; apply (Hin b); by right|done].
    apply (echo_checkbox_step ev); [|done].
    intros b ->. apply (Hin b). by left.
Qed.

(** C5: a chunk that the echo pipe delivers is written to the terminal if
    and only if the echo checkbox is checked in the state in which it is
    delivered.  That is the value the user has last set: after the checkbox
    is set to [b], and whatever else happens in between, it is [b]. *)
Theorem echo_gated_at_delivery (s s' : State) :
  step EchoTakes s = Some s' ->
  exists chunk rest,
    termOutputForEcho s = chunk :: rest /\
    termOutputForEcho s' = rest /\
    display s' =
    display s ++
    (if checked (el_echoCheckbox (dom s)) then [WriteUtf8 chunk] else []) /\
    forall (s0 s1 : State) (b : bool) (evs : list Event),
      step (SetChecked echoCheckbox b) s0 = Some s1 ->
      (forall b', ~ In (SetChecked echoCheckbox b') evs) ->
      exec evs s1 = Some s ->
      checked (el_echoCheckbox (dom s)) = b.
Proof.
  intros Htake.
  assert (Hb : forall (s0 s1 : State) (b : bool) (evs : list Event),
    step (SetChecked echoCheckbox b) s0 = Some s1 ->
    (forall b', ~ In (SetChecked echoCheckbox b') evs) ->
    exec evs s1 = Some s ->
    checked (el_echoCheckbox (dom s)) = b).
  { intros s0 s1 b evs Hcheck Hin Hex.
    rewrite (echo_checkbox_exec evs s1 s Hin Hex).
    clear -Hcheck. destruct_state s0. by step_cases Hcheck. }
  revert Hb. match goal with |- ?Q -> _ => generalize Q end.
  intros Q HQ. destruct_state s.
  step_cases Htake; log_facts; eauto 10.
Qed.

(** ** Opening the port *)

Lemma not_NotFoundError (e : Error) :
  name e <> "NotFoundError" -> negb (name e =? "NotFoundError") = true.
Proof. intros H. by apply negb_true_iff, String.eqb_neq. Qed.

Lemma is_NotFoundError (e : Error) :
  name e = "NotFoundError" -> negb (name e =? "NotFoundError") = false.
Proof. intros H. by apply negb_false_iff, String.eqb_eq. Qed.

(** C3: the code writes the connect error without the closing bracket.
    After a click, a chosen port and a failed [port.open], the terminal
    shows one line, which ends with the message of the error. *)
Theorem connect_error_annotation_unclosed :
  observe
    [Click; RequestPortSettles Fulfilled; OpenSettles (Rejected NetworkError)] =
  Some (false, C_idle, R_undefined, W_undefined, "Connect",
        [Writeln "<CONNECT ERROR: Failed to open serial port."]).
Proof. vm_compute. reflexivity. Qed.

(** C7: when [requestPort] or [port.open] rejects, a [NotFoundError] writes
    nothing and any other error writes the connect error, and that is all
    the call does: [connected], the elements, [processStreams], the pumps
    and the controllers are as they were, and [requestNewPort] is over.  So
    [connected] stays [false] and the elements stay as after a disconnect
    if they were. *)
Theorem open_failure_starts_nothing (s s' : State) (ev : Event) (e : Error) :
  ev = RequestPortSettles (Rejected e) \/ ev = OpenSettles (Rejected e) ->
  step ev s = Some s' ->
  (name e = "NotFoundError" -> log s' = log s /\ display s' = display s) /\
  (name e <> "NotFoundError" ->
   log s' =
     log s ++ [(in_requestNewPort, Writeln ("<CONNECT ERROR: " +:+ message e))] /\
   display s' = display s ++ [Writeln ("<CONNECT ERROR: " +:+ message e)]) /\
  connected s' = connected s /\
  (connected s = false -> connected s' = false) /\
  dom s' = dom s /\
  (ui_disconnected (dom s) -> ui_disconnected (dom s')) /\
  task_requestNewPort s' = N_idle /\
  task_processStreams s' = task_processStreams s /\
  portUnreadable s' = portUnreadable s /\
  portUnwritable s' = portUnwritable s /\
  controllers s' = controllers s /\
  streamController s' = streamController s /\
  ops_of in_processStreams (log s') = ops_of in_processStreams (log s).
Proof.
  intros Hev Hstep. destruct_state s.
  destruct Hev; subst ev; step_cases Hstep; log_facts.
  all: repeat split; try done.
  all: try (unfold ui_disconnected in *; tauto).
  all: match goal with
       | H : name _ = _ |- _ => apply is_NotFoundError in H; congruence
       | H : name _ <> _ |- _ => apply not_NotFoundError in H; congruence
       end.
Qed.

(** ** The baud rate *)

Lemma digit_value_letter (ch : ascii) (d : N) :
  is_decimal_digit ch = false -> digit_value ch = Some d -> (10 <= d)%N.
Proof.
  unfold digit_value. intros ->.
  repeat case_match; intros; simplify_eq;
    repeat match goal with
    | H : _ && _ = true |- _ => apply andb_true_iff in H; destruct H
    | H : (_ <=? _)%N = true |- _ => apply N.leb_le in H
    end; lia.
Qed.

Lemma parse_digits_no_digit (s : string) :
  (forall ch, In ch (list_ascii_of_string s) -> is_decimal_digit ch = false) ->
  parse_digits 10 s None = None.
Proof.
  destruct s as [|ch r]; [done|]. intros Hs. cbn.
  destruct (digit_value ch) as [d|] eqn:Hd; [|done].
  assert (10 <= d)%N as Hle.
  { apply (digit_value_letter ch); [|done]. apply Hs. by left. }
  apply N.ltb_ge in Hle. by rewrite Hle.
Qed.

Lemma trim_start_chars_le (n : nat) (s : string) (ch : ascii) :
  String.length s <= n ->
  In ch (list_ascii_of_string (trim_start s)) -> In ch (list_ascii_of_string s).
Proof.
  revert s. induction n as [|n IH]; intros s Hn.
  - destruct s; [done|cbn in Hn; lia].
  - destruct s as [|c1 r1]; [done|]. cbn [trim_start].
    destruct (is_white_space_1 c1).
    { intros H. right. apply IH; [cbn in Hn; lia|done]. }
    destruct r1 as [|c2 r2]; [done|].
    destruct (is_white_space_2 c1 c2).
    { intros H. right. right. apply IH; [cbn in Hn; lia|done]. }
    destruct r2 as [|c3 r3]; [done|].
    destruct (is_white_space_3 c1 c2 c3); [|done].
    intros H. right. right. right. apply IH; [cbn in Hn; lia|done].
Qed.

Lemma trim_start_chars (s : string) (ch : ascii) :
  In ch (list_ascii_of_string (trim_start s)) -> In ch (list_ascii_of_string s).
Proof. by apply (trim_start_chars_le (String.length s)). Qed.

Lemma trim_start_none (s : string) :
  starts_with_white_space s = false -> trim_start s = s.
Proof.
  destruct s as [|c1 [|c2 [|c3 r]]]; cbn; try done.
  - rewrite orb_false_r. by intros ->.
  - rewrite orb_false_r. by intros [-> ->]%orb_false_iff.
  - by intros [-> [-> ->]%orb_false_iff]%orb_false_iff.
Qed.

Lemma white_space_no_digit (c : ascii) (r : string) :
  is_decimal_digit c = true -> starts_with_white_space (String c r) = false.
Proof.
  intros Hc. destruct c as [[] [] [] [] [] [] [] []]; try done.
  all: by destruct r as [|c2 [|c3 r]].
Qed.

Lemma strip_sign_chars (s : string) (ch : ascii) :
  In ch (list_ascii_of_string (snd (strip_sign s))) ->
  In ch (list_ascii_of_string s).
Proof.
  destruct s as [|c r]; [done|].
  destruct c as [[] [] [] [] [] [] [] []]; cbn; tauto.
Qed.

Lemma strip_hex_prefix_no_digit (s : string) :
  (forall ch, In ch (list_ascii_of_string s) -> is_decimal_digit ch = false) ->
  strip_hex_prefix s = (10%N, s).
Proof.
  destruct s as [|c r]; [done|]. intros Hs.
  assert (is_decimal_digit c = false) as Hc by (apply Hs; by left).
  by destruct c as [[] [] [] [] [] [] [] []].
Qed.

Lemma parseInt_no_digit (str : string) :
  (forall ch, In ch (list_ascii_of_string str) -> is_decimal_digit ch = false) ->
  parseInt str = NaN.
Proof.
  intros Hstr. unfold parseInt.
  destruct (strip_sign (trim_start str)) as [negative s] eqn:Hsign.
  assert (forall ch, In ch (list_ascii_of_string s) -> is_decimal_digit ch = false)
    as Hs.
  { intros ch Hch. apply Hstr, trim_start_chars, strip_sign_chars.
    by rewrite Hsign. }
  rewrite (strip_hex_prefix_no_digit s Hs).
  by rewrite (parse_digits_no_digit s Hs).
Qed.

Lemma parseInt_not_a_number (c : ascii) (r : string) :
  starts_with_white_space (String c r) = false ->
  c <> "+"%char ->
  c <> "-"%char ->
  is_decimal_digit c = false ->
  parseInt (String c r) = NaN.
Proof.
  intros Hws Hplus Hminus Hdigit. unfold parseInt.
  rewrite (trim_start_none _ Hws).
  assert (strip_sign (String c r) = (false, String c r)) as ->.
  { by destruct c as [[] [] [] [] [] [] [] []]. }
  assert (strip_hex_prefix (String c r) = (10%N, String c r)) as ->.
  { by destruct c as [[] [] [] [] [] [] [] []]. }
  cbn [parse_digits].
  destruct (digit_value c) as [d|] eqn:Hd; [|done].
  pose proof (digit_value_letter c d Hdigit Hd) as Hle.
  apply N.ltb_ge in Hle. by rewrite Hle.
Qed.

Lemma digit_value_decimal (c : ascii) :
  is_decimal_digit c = true ->
  digit_value c = Some (N_of_ascii c - 48)%N /\ (N_of_ascii c - 48 < 10)%N.
Proof.
  intros Hc. unfold digit_value. rewrite Hc. split; [done|].
  by destruct c as [[] [] [] [] [] [] [] []].
Qed.

Lemma parse_digits_decimal (s : string) (acc : option N) :
  (forall ch, In ch (list_ascii_of_string s) -> is_decimal_digit ch = true) ->
  s <> "" ->
  parse_digits 10 s acc =
  Some (fold_left (fun a c => (a * 10 + (N_of_ascii c - 48))%N)
          (list_ascii_of_string s) (default 0%N acc)).
Proof.
  revert acc. induction s as [|c r IH]; intros acc Hs Hne; [done|].
  cbn [parse_digits list_ascii_of_string fold_left].
  destruct (digit_value_decimal c) as [-> Hlt]; [apply Hs; by left|].
  apply N.ltb_lt in Hlt. rewrite Hlt.
  destruct r as [|c' r']; [done|].
  rewrite IH; [done| |done]. intros ch Hch. apply Hs. by right.
Qed.

Lemma parseInt_decimal (str : string) :
  (forall ch, In ch (list_ascii_of_string str) -> is_decimal_digit ch = true) ->
  str <> "" ->
  parseInt str = to_Number false (decimal str).
Proof.
  intros Hstr Hne. unfold parseInt, decimal.
  destruct str as [|c r]; [done|].
  assert (is_decimal_digit c = true) as Hc by (apply Hstr; by left).
  rewrite (trim_start_none _ (white_space_no_digit c r Hc)).
  assert (strip_sign (String c r) = (false, String c r)) as ->.
  { by destruct c as [[] [] [] [] [] [] [] []]. }
  assert (strip_hex_prefix (String c r) = (10%N, String c r)) as ->.
  { destruct r as [|c2 r2].
    - by destruct c as [[] [] [] [] [] [] [] []].
    - assert (is_decimal_digit c2 = true) as Hc2 by (apply Hstr; right; by left).
      destruct c as [[] [] [] [] [] [] [] []]; try done.
      by destruct c2 as [[] [] [] [] [] [] [] []]. }
  by rewrite (parse_digits_decimal (String c r) None Hstr Hne).
Qed.

(** C10: [connectToPort] calls [port.open] with the baud rate that
    [getSelectedBaudRate] returns: the parse of the custom input when the
    value of the selector is "custom", the parse of that value otherwise.
    Nothing is checked.  A string of decimal digits parses to the number it
    denotes, rounded to a double, and that is the baud rate; a string
    without a decimal digit, or one that starts with neither white space, a
    sign nor a decimal digit, parses to [NaN], and then [NaN] is the baud
    rate [port.open] gets. *)
Theorem baud_rate_unchecked (s s' : State) :
  step (RequestPortSettles Fulfilled) s = Some s' ->
  exists o : SerialOptions,
    log s' = log s ++ [(in_connectToPort, Open o)] /\
    baudrate o = getSelectedBaudRate (dom s) /\
    (value (el_baudRateSelector (dom s)) = "custom" ->
     baudrate o = parseInt (value (el_customBaudRateInput (dom s)))) /\
    (value (el_baudRateSelector (dom s)) <> "custom" ->
     baudrate o = parseInt (value (el_baudRateSelector (dom s)))) /\
    (forall str : string,
       (forall ch, In ch (list_ascii_of_string str) -> is_decimal_digit ch = true) ->
       str <> "" ->
       parseInt str = to_Number false (decimal str)) /\
    (forall str : string,
       (forall ch, In ch (list_ascii_of_string str) -> is_decimal_digit ch = false) ->
       parseInt str = NaN) /\
    (forall (c : ascii) (r : string),
       starts_with_white_space (String c r) = false ->
       c <> "+"%char -> c <> "-"%char ->
       is_decimal_digit c = false ->
       parseInt (String c r) = NaN) /\
    (value (el_baudRateSelector (dom s)) = "custom" ->
     (forall ch,
        In ch (list_ascii_of_string (value (el_customBaudRateInput (dom s)))) ->
        is_decimal_digit ch = false) ->
     baudrate o = NaN) /\
    (value (el_baudRateSelector (dom s)) = "custom" ->
     (forall ch,
        In ch (list_ascii_of_string (value (el_customBaudRateInput (dom s)))) ->
        is_decimal_digit ch = true) ->
     value (el_customBaudRateInput (dom s)) <> "" ->
     baudrate o = to_Number false (decimal (value (el_customBaudRateInput (dom s))))).
Proof.
  intros Hstep. destruct_state s. step_cases Hstep; fields.
  eexists. split; [reflexivity|]. cbn [baudrate].
  unfold getSelectedBaudRate.
  repeat split; try done.
  - intros Hv. apply String.eqb_eq in Hv. by rewrite Hv.
  - intros Hv. apply String.eqb_neq in Hv. by rewrite Hv.
  - apply parseInt_decimal.
  - apply parseInt_no_digit.
  - apply parseInt_not_a_number.
  - intros Hv Hdigits. apply String.eqb_eq in Hv. rewrite Hv.
    by apply parseInt_no_digit.
  - intros Hv Hdigits Hne. apply String.eqb_eq in Hv. rewrite Hv.
    by apply parseInt_decimal.
Qed.

(** ** The lines on the terminal *)

Lemma annotated_shutdown (p : Pipe) (l : list StreamAction) :
  Forall annotated (map (pair in_platform) (map (Shutdown p) l)).
Proof. induction l; constructor; done. Qed.

Lemma annotated_step (ev : Event) (s s' : State) :
  Forall annotated (log s) -> step ev s = Some s' -> Forall annotated (log s').
Proof.
  intros Hlog Hstep. destruct_state s.
  destruct ev; step_cases Hstep; fields; try done.
  all: repeat (apply Forall_app; split); try done.
  all: try apply annotated_shutdown.
  all: cbn [map].
  all: repeat match goal with
       | |- Forall _ (_ :: _) =>
           apply List.Forall_cons;
           [unfold annotated, is_annotation; cbn [snd]; eauto 8|]
       | |- Forall _ [] => apply List.Forall_nil
       end.
Qed.

(** X4: every line the script ever writes is one of the five annotations,
    the connect error being the one without a closing bracket. *)
Lemma lines_are_annotations (s : State) (a : Actor) (line : string) :
  reachable s -> In (a, Writeln line) (log s) -> is_annotation line.
Proof.
  intros Hs Hin.
  assert (Forall annotated (log s)) as Hall.
  { clear Hin. induction Hs as [d|ev s s' _ IH Hstep]; [constructor|].
    by apply (annotated_step ev s). }
  rewrite List.Forall_forall in Hall. exact (Hall _ Hin).
Qed.

(** Five bytes arrive and are shown; the user disconnects; the port closes. *)
Example scenario_receive_then_disconnect :
  observe (connect ++ [PortData "hello"] ++ disconnect ++ [CloseSettles Fulfilled]) =
  Some (false, C_settled Fulfilled, R_settled Fulfilled, W_settled Fulfilled,
        "Connect",
        [Writeln "<CONNECTED>"; WriteUtf8 "hello"; Writeln "<DISCONNECTED>"]).
Proof. vm_compute. reflexivity. Qed.

(** With echo on, "ab" goes to the port and to the terminal; with echo off,
    "cd" goes to the port only. *)
Example scenario_echo :
  option_map
    (fun s => (display s, ops_of in_platform (log s)))
    (exec (connect ++
           [SetChecked echoCheckbox true; Key "ab"; PortTakes; EchoTakes;
            SetChecked echoCheckbox false; Key "cd"; PortTakes; EchoTakes])
       (initial form0)) =
  Some ([Writeln "<CONNECTED>"; WriteUtf8 "ab"],
        [PortWrite "ab"; PortWrite "cd"]).
Proof. vm_compute. reflexivity. Qed.

(** * More of the script *)

(** ** The bytes *)

Lemma shown_by_app (a : Actor) (l l' : list (Actor * Op)) :
  shown_by a (l ++ l') = shown_by a l ++ shown_by a l'.
Proof. unfold shown_by. by rewrite ops_of_app, flat_map_app. Qed.

Lemma port_written_app (l l' : list (Actor * Op)) :
  port_written (l ++ l') = port_written l ++ port_written l'.
Proof. unfold port_written. by rewrite ops_of_app, flat_map_app. Qed.

Lemma port_written_shutdown (p : Pipe) (l : list StreamAction) :
  port_written (map (pair in_platform) (map (Shutdown p) l)) = [].
Proof. induction l as [|a l IH]; [done|]. exact IH. Qed.

Lemma shown_by_platform (a : Actor) (os : list Op) :
  Actor_eqb in_platform a = false ->
  shown_by a (map (pair in_platform) os) = [].
Proof. intros Ha. unfold shown_by. by rewrite ops_of_other. Qed.

Ltac bytes_facts :=
  fields;
  rewrite ?shown_by_app, ?port_written_app, ?port_written_shutdown;
  rewrite ?shown_by_platform by reflexivity;
  cbn [shown_by port_written ops_of List.filter map flat_map Actor_eqb fst snd
       app keys];
  rewrite ?app_nil_r.

Lemma keys_step (ev : Event) (s s' : State) :
  step ev s = Some s' ->
  port_written (log s') ++ termOutputForPort s' =
  port_written (log s) ++ termOutputForPort s ++ keys [ev].
Proof.
  intros Hstep. destruct_state s.
  destruct ev; step_cases Hstep; bytes_facts; try done.
  by rewrite <- app_assoc.
Qed.

(** X2: what is typed reaches the port in the order it was typed and once:
    the chunks written to [port.writable] followed by those still queued in
    [termOutputForPort] are the chunks queued before followed by the ones
    that the encoder has made of what was typed since, one for each data
    event that is not empty.  Nothing is dropped when no session runs. *)
Theorem keys_reach_port_in_order (evs : list Event) (s s' : State) :
  exec evs s = Some s' ->
  port_written (log s') ++ termOutputForPort s' =
  port_written (log s) ++ termOutputForPort s ++ keys evs.
Proof.
  revert s. induction evs as [|ev evs IH]; intros s Hex; cbn [exec] in Hex.
  - simplify_eq. cbn. by rewrite app_nil_r.
  - destruct (step ev s) as [s1|] eqn:Hstep; [|done].
    rewrite (IH s1 Hex), app_assoc, (keys_step ev s s1 Hstep).
    rewrite <- !app_assoc. do 2 f_equal. unfold keys. cbn [flat_map].
    by rewrite app_nil_r.
Qed.

Lemma echo_step (ev : Event) (s s' : State) :
  step ev s = Some s' ->
  exists taken sub,
    taken ++ termOutputForEcho s' = termOutputForEcho s ++ keys [ev] /\
    shown_by in_termInputFromEcho (log s') =
    shown_by in_termInputFromEcho (log s) ++ sub /\
    sublist sub taken.
Proof.
  intros Hstep. destruct_state s.
  destruct ev; step_cases Hstep; bytes_facts.
  all: try (exists [], []; by rewrite ?app_nil_r).
  all: try (eexists [_], [_]; cbn; by rewrite ?app_nil_r).
  all: eexists [_], []; cbn; rewrite ?app_nil_r; repeat split; try done.
  all: apply sublist_nil_l.
Qed.

(** X3: the echo branch takes the typed chunks from its queue in order, and
    what [termInputFromEcho] writes to the terminal is, in order, some of
    the chunks taken: none twice, none that was not typed. *)
Theorem echo_shows_typed_chunks (evs : list Event) (s s' : State) :
  exec evs s = Some s' ->
  exists taken sub,
    taken ++ termOutputForEcho s' = termOutputForEcho s ++ keys evs /\
    shown_by in_termInputFromEcho (log s') =
    shown_by in_termInputFromEcho (log s) ++ sub /\
    sublist sub taken.
Proof.
  revert s. induction evs as [|ev evs IH]; intros s Hex; cbn [exec] in Hex.
  - simplify_eq. exists [], []. cbn. by rewrite !app_nil_r.
  - destruct (step ev s) as [s1|] eqn:Hstep; [|done].
    destruct (echo_step ev s s1 Hstep) as (t1 & b1 & Hq1 & Hl1 & Hs1).
    destruct (IH s1 Hex) as (t2 & b2 & Hq2 & Hl2 & Hs2).
    exists (t1 ++ t2), (b1 ++ b2). split; [|split].
    + rewrite <- app_assoc, Hq2, app_assoc, Hq1, <- !app_assoc.
      do 2 f_equal. unfold keys. cbn [flat_map]. by rewrite app_nil_r.
    + by rewrite Hl2, Hl1, <- app_assoc.
    + by apply sublist_app.
Qed.

(** ** The form *)

Lemma custom_input_step (ev : Event) (s s' : State) :
  step ev s = Some s' ->
  (custom_input_shown (dom s) \/ exists v, ev = Input baudRateSelector v) ->
  custom_input_shown (dom s').
Proof.
  intros Hstep Hok. unfold custom_input_shown in *. destruct_state s.
  destruct ev; step_cases Hstep; fields.
  all: try (destruct Hok as [Hok|[? ?]]; [exact Hok|done]).
  all: try (destruct id; destruct Hok as [Hok|[? ?]]; done).
  all: cbn in *; by rewrite E0.
Qed.

(** X5: the custom baud rate input is shown exactly when the value of the
    selector is "custom": the listener of the selector makes it so on every
    input, and nothing else in the script touches it. *)
Theorem custom_input_follows_selector (evs : list Event) (s s' : State) :
  exec evs s = Some s' ->
  (custom_input_shown (dom s) \/ exists v, In (Input baudRateSelector v) evs) ->
  custom_input_shown (dom s').
Proof.
  revert s. induction evs as [|ev evs IH]; intros s Hex Hok; cbn [exec] in Hex.
  - simplify_eq. destruct Hok as [Hok|[v []]]. exact Hok.
  - destruct (step ev s) as [s1|] eqn:Hstep; [|done].
    apply (IH s1 Hex). destruct Hok as [Hok|[v [Hv|Hv]]].
    + left. apply (custom_input_step ev s s1 Hstep). by left.
    + left. apply (custom_input_step ev s s1 Hstep). right. by exists v.
    + right. by exists v.
Qed.

Lemma ui_step (ev : Event) (s s' : State) :
  step ev s = Some s' ->
  (connected s = true -> ui_connected (dom s)) ->
  (connected s' = true -> ui_connected (dom s')) /\
  ((connected s = false -> ui_disconnected (dom s)) ->
   connected s' = false -> ui_disconnected (dom s')).
Proof.
  intros Hstep Hc. unfold ui_connected, ui_disconnected in *. destruct_state s.
  destruct ev; step_cases Hstep; fields.
  all: try (split; [exact Hc|intros Hd; exact Hd]).
  all: try (split; [intros ?|intros _ ?]; try done; cbn; by repeat split).
  all: destruct id; (split; [exact Hc|intros Hd; exact Hd]).
Qed.

(** X6: the elements agree with [connected]: whenever it is [true] the
    button reads "Disconnect" and the six settings are disabled, and, if the
    page started with the button reading "Connect" and the settings enabled,
    whenever it is [false] they are so again. *)
Theorem ui_agrees_with_connected (evs : list Event) (d : Dom) (s : State) :
  exec evs (initial d) = Some s ->
  (connected s = true -> ui_connected (dom s)) /\
  (ui_disconnected d -> connected s = false -> ui_disconnected (dom s)).
Proof.
  intros Hex.
  enough (forall s0,
    exec evs s0 = Some s ->
    (connected s0 = true -> ui_connected (dom s0)) ->
    (connected s = true -> ui_connected (dom s)) /\
    ((connected s0 = false -> ui_disconnected (dom s0)) ->
     connected s = false -> ui_disconnected (dom s))) as Hgen.
  { destruct (Hgen (initial d) Hex) as [H1 H2]; [done|].
    split; [exact H1|]. intros Hd. apply H2. by intros _. }
  clear Hex. induction evs as [|ev evs IH]; intros s0 Hex Hc; cbn [exec] in Hex.
  - simplify_eq. by split.
  - destruct (step ev s0) as [s1|] eqn:Hstep; [|done].
    destruct (ui_step ev s0 s1 Hstep Hc) as [Hc1 Hd1].
    destruct (IH s1 Hex Hc1) as [Hc2 Hd2].
    split; [exact Hc2|]. intros Hd0. apply Hd2. by apply Hd1.
Qed.

Lemma entries_step (ev : Event) (s s' : State) :
  step ev s = Some s' ->
  (is_edit ev = false -> entries (dom s') = entries (dom s)) /\
  disabled (el_echoCheckbox (dom s')) = disabled (el_echoCheckbox (dom s)) /\
  disabled (el_connectButton (dom s')) = disabled (el_connectButton (dom s)).
Proof.
  intros Hstep. destruct_state s.
  destruct ev; step_cases Hstep; fields; try done.
  all: try (destruct id; done).
Qed.

(** X7: the script reads what the user has entered and never writes it: but
    for the edits of the user, the values and checkboxes of all elements
    stay as they are.  It never disables the echo checkbox or the connect
    button either. *)
Theorem script_never_writes_entries (evs : list Event) (s s' : State) :
  exec evs s = Some s' ->
  (forallb (fun ev => negb (is_edit ev)) evs = true ->
   entries (dom s') = entries (dom s)) /\
  disabled (el_echoCheckbox (dom s')) = disabled (el_echoCheckbox (dom s)) /\
  disabled (el_connectButton (dom s')) = disabled (el_connectButton (dom s)).
Proof.
  revert s. induction evs as [|ev evs IH]; intros s Hex; cbn [exec] in Hex.
  - by simplify_eq.
  - destruct (step ev s) as [s1|] eqn:Hstep; [|done].
    destruct (entries_step ev s s1 Hstep) as (He1 & Hd1 & Hb1).
    destruct (IH s1 Hex) as (He2 & Hd2 & Hb2).
    split; [|split; congruence].
    cbn [forallb]. intros [Hev Hevs]%andb_true_iff.
    rewrite He2, He1; [done|by apply negb_true_iff|done].
Qed.

Lemma reachable_ui_connected (s : State) :
  reachable s -> connected s = true -> ui_connected (dom s).
Proof.
  induction 1 as [d|ev s s' Hs IH Hstep]; [done|].
  by apply (ui_step ev s s' Hstep).
Qed.

(** X8: the settings of a session are frozen: while [connected] is [true] no
    event changes the baud rate, the custom baud rate, the data bits, the
    parity, the stop bits or the flow control of the form. *)
Theorem settings_frozen_while_connected (ev : Event) (s s' : State) :
  reachable s ->
  connected s = true ->
  step ev s = Some s' ->
  settings (dom s') = settings (dom s).
Proof.
  intros Hs Hc Hstep.
  pose proof (reachable_ui_connected s Hs Hc) as Hui.
  clear Hs. unfold ui_connected in *. destruct_state s.
  destruct Hui as (Ht & H1 & H2 & H3 & H4 & H5 & H6). subst conn.
  destruct ev; step_cases Hstep; fields; try done.
  all: try (cbn in E; congruence).
  all: destruct id; cbn in E |- *; first [congruence|done].
Qed.

(** ** Sessions *)

Lemma not_aborted_app (l : list bool) :
  default false ((l ++ [false]) !! length l) = false.
Proof. by rewrite lookup_app_r, Nat.sub_diag. Qed.

Lemma not_aborted_app2 (l : list bool) :
  default false (((l ++ [false]) ++ [false]) !! S (length l)) = false /\
  default false (((l ++ [false]) ++ [false]) !! length l) = false.
Proof.
  split.
  - rewrite lookup_app_r; rewrite length_app; cbn; [|lia].
    by replace (S (length l) - (length l + 1)) with 0 by lia.
  - rewrite lookup_app_l; [|rewrite length_app; cbn; lia].
    apply not_aborted_app.
Qed.

(** X9: whatever happened before, a port that opens starts a clean session:
    a new controller that is not aborted becomes the shared one, both pumps
    pass their loop test and start their pipes on its signal, the echo pipe
    gets one more new controller, and [processStreams] waits for the read
    pump. *)
Theorem open_starts_clean_session (s s' : State) :
  step (OpenSettles Fulfilled) s = Some s' ->
  connected s' = true /\
  streamController s' = length (controllers s) /\
  aborted s' (streamController s') = false /\
  portUnreadable s' = R_piping (pipe_options (streamController s')) /\
  portUnwritable s' =
    W_piping (pipe_options (streamController s'))
      (pipe_options (S (streamController s'))) Pending /\
  aborted s' (S (streamController s')) = false /\
  task_processStreams s' = C_await_portUnreadable /\
  task_requestNewPort s' = N_idle /\
  ops_of in_connectToPort (log s') =
  ops_of in_connectToPort (log s) ++
  [SetConnected true; SetTextContent connectButton "Disconnect";
   SetDisabled baudRateSelector true; SetDisabled customBaudRateInput true;
   SetDisabled dataBitsSelector true; SetDisabled paritySelector true;
   SetDisabled stopBitsSelector true; SetDisabled flowControlCheckbox true;
   Writeln "<CONNECTED>"].
Proof.
  intros Hstep. destruct_state s.
  pose proof (not_aborted_app ctls) as H1.
  pose proof (not_aborted_app2 ctls) as [H2 H3].
  step_cases Hstep; fields.
  all: unfold aborted; fields.
  all: rewrite ?length_app in *; cbn [length] in *.
  all: rewrite ?Nat.add_1_r in *.
  all: rewrite ?H1 in *; try done.
  do 8 (split; [done|]).
  rewrite !ops_of_app. cbn. by rewrite !app_nil_r, <- !app_assoc.
Qed.

Lemma close_failed_step (ev : Event) (s s' : State) (e : Error) :
  task_processStreams s = C_settled (Rejected e) ->
  connected s = true ->
  task_requestNewPort s = N_idle ->
  session_over s ->
  ui_connected (dom s) ->
  step ev s = Some s' ->
  (task_processStreams s' = C_settled (Rejected e) /\
   connected s' = true /\
   task_requestNewPort s' = N_idle /\
   session_over s' /\
   ui_connected (dom s')) /\
  streamController s' = streamController s /\
  exists n,
    log s' = log s ++ repeat (in_click_listener, AbortCall (streamController s)) n.
Proof.
  intros Ht Hc Hn Hover Hui Hstep.
  assert (task_processStreams s' = C_settled (Rejected e) /\
          connected s' = true /\
          task_requestNewPort s' = N_idle /\
          session_over s' /\
          streamController s' = streamController s /\
          exists n,
            log s' =
            log s ++ repeat (in_click_listener, AbortCall (streamController s)) n)
    as (Ht' & Hc' & Hn' & Hover' & Hsc' & Hlog').
  { destruct Hui as (_ & Hb & _). destruct Hover as [Hr Hw].
    unfold session_over. destruct_state s. subst.
    destruct ev; step_cases Hstep; fields.
    all: try (cbn in E; congruence).
    all: repeat split; try done.
    all: first [by exists 1 | exists 0; by rewrite app_nil_r]. }
  split; [|by split]. do 4 (split; [done|]).
  by apply (ui_step ev s s' Hstep).
Qed.

(** X10: a failed [port.close] is final when no other attempt to connect is
    under way.  From a state in which [processStreams] has ended with the
    error of [port.close], with [connected] set, the form disabled, both
    pumps returned and [requestNewPort] not running, all this stays so
    whatever happens; a click only calls [abort] on the controller of the
    session that is over.  Nothing else is called any more: no port is
    requested or opened, no pipe is started, and the terminal gets no more
    lines or bytes. *)
Theorem close_failure_is_final (evs : list Event) (s s' : State) (e : Error) :
  task_processStreams s = C_settled (Rejected e) ->
  connected s = true ->
  task_requestNewPort s = N_idle ->
  session_over s ->
  ui_connected (dom s) ->
  exec evs s = Some s' ->
  task_processStreams s' = C_settled (Rejected e) /\
  connected s' = true /\
  task_requestNewPort s' = N_idle /\
  ui_connected (dom s') /\
  exists n,
    log s' = log s ++ repeat (in_click_listener, AbortCall (streamController s)) n.
Proof.
  revert s. induction evs as [|ev evs IH]; intros s Ht Hc Hn Hover Hui Hex;
    cbn [exec] in Hex.
  - simplify_eq. do 4 (split; [done|]). exists 0. by rewrite app_nil_r.
  - destruct (step ev s) as [s1|] eqn:Hstep; [|done].
    destruct (close_failed_step ev s s1 e Ht Hc Hn Hover Hui Hstep)
      as ((Ht1 & Hc1 & Hn1 & Hover1 & Hui1) & Hsc1 & n1 & Hl1).
    destruct (IH s1 Ht1 Hc1 Hn1 Hover1 Hui1 Hex) as (Ht2 & Hc2 & Hn2 & Hui2 & n2 & Hl2).
    do 4 (split; [done|]). exists (n1 + n2).
    by rewrite Hl2, Hl1, Hsc1, repeat_app, app_assoc.
Qed.

(** ** Leaving a session *)

Lemma exec_app (evs evs' : list Event) (s : State) :
  exec (evs ++ evs') s =
  match exec evs s with
  | Some s1 => exec evs' s1
  | None => None
  end.
Proof.
  revert s. induction evs as [|ev evs IH]; intros s; cbn [exec app]; [done|].
  destruct (step ev s); auto.
Qed.

Lemma streams_task_step (ev : Event) (s s' : State) :
  step ev s = Some s' ->
  ev <> ResumeProcessStreams ->
  (forall o, ev <> CloseSettles o) ->
  ev <> OpenSettles Fulfilled ->
  task_processStreams s' = task_processStreams s.
Proof.
  intros Hstep H1 H2 H3. destruct_state s.
  destruct ev; step_cases Hstep; fields; try done.
  all: first [by destruct H3 | by edestruct H2].
Qed.

Lemma click_aborts (s : State) :
  reachable s -> connected s = true ->
  exists s1, step Click s = Some s1 /\ aborted s1 (streamController s1) = true.
Proof.
  intros Hs Hc. pose proof (reachable_Inv s Hs) as [I1 _ _ _ _ _]. clear Hs.
  destruct (step Click s) as [s1|] eqn:Hstep.
  - exists s1. split; [done|]. destruct_state s. subst conn.
    step_cases Hstep; fields. unfold aborted; fields.
    by apply aborted_insert_eq.
  - exfalso. destruct_state s. subst conn. by step_cases Hstep.
Qed.

Lemma read_pipe_aborts (s : State) (o : PipeOptions) :
  reachable s ->
  portUnreadable s = R_piping o ->
  aborted s (streamController s) = true ->
  exists s1,
    step (PipeSettles ReadPipe SignalAborted) s = Some s1 /\
    portUnreadable s1 = R_settled Fulfilled.
Proof.
  intros Hs Hr Hab. pose proof (reachable_Inv s Hs) as [_ I2 _ _ _ _]. clear Hs.
  unfold read_task_ok in I2. rewrite Hr in I2. subst o.
  unfold aborted in Hab.
  destruct (step (PipeSettles ReadPipe SignalAborted) s) as [s1|] eqn:Hstep.
  - exists s1. split; [done|]. destruct_state s. subst t_read.
    step_cases Hstep; fields; try done.
    all: by rewrite Hab, andb_false_r in *.
  - exfalso. destruct_state s. subst t_read.
    step_cases Hstep; fields; cbn in *; congruence.
Qed.

Lemma write_pipe_aborts (s : State) (o echo : PipeOptions) (p : Promise) :
  reachable s ->
  portUnwritable s = W_piping o echo p ->
  aborted s (streamController s) = true ->
  exists s1,
    step (PipeSettles WritePipe SignalAborted) s = Some s1 /\
    portUnwritable s1 = W_await_echo echo p.
Proof.
  intros Hs Hw Hab. pose proof (reachable_Inv s Hs) as [_ _ I3 _ _ _]. clear Hs.
  unfold write_task_ok in I3. rewrite Hw in I3. destruct I3 as [-> _].
  unfold aborted in Hab.
  destruct (step (PipeSettles WritePipe SignalAborted) s) as [s1|] eqn:Hstep.
  - exists s1. split; [done|]. destruct_state s. subst t_write.
    by step_cases Hstep; fields.
  - exfalso. destruct_state s. subst t_write.
    step_cases Hstep; fields; cbn in *; congruence.
Qed.

Lemma echo_pipe_aborts (s : State) (echo : PipeOptions) :
  reachable s ->
  portUnwritable s = W_await_echo echo Pending ->
  exists s1 out,
    step (PipeSettles EchoPipe SignalAborted) s = Some s1 /\
    portUnwritable s1 = W_await_echo echo (Settled out).
Proof.
  intros Hs Hw. pose proof (reachable_Inv s Hs) as [_ _ I3 _ _ _]. clear Hs.
  unfold write_task_ok in I3. rewrite Hw in I3. destruct I3 as [_ Hab].
  unfold aborted in Hab.
  destruct (step (PipeSettles EchoPipe SignalAborted) s) as [s1|] eqn:Hstep.
  - exists s1. destruct_state s. subst t_write.
    step_cases Hstep; fields. eauto.
  - exfalso. destruct_state s. subst t_write.
    step_cases Hstep; fields; cbn in *; congruence.
Qed.

Lemma write_pump_returns (s : State) (echo : PipeOptions) (out : Outcome) :
  portUnwritable s = W_await_echo echo (Settled out) ->
  aborted s (streamController s) = true ->
  exists s1,
    step ResumeProcessWritableStream s = Some s1 /\
    portUnwritable s1 = W_settled Fulfilled.
Proof.
  intros Hw Hab. unfold aborted in Hab.
  destruct (step ResumeProcessWritableStream s) as [s1|] eqn:Hstep.
  - exists s1. split; [done|]. destruct_state s. subst t_write.
    step_cases Hstep; fields; try done.
    all: rewrite Hab, andb_false_r in *; done.
  - exfalso. destruct_state s. subst t_write. by step_cases Hstep.
Qed.

Lemma resume_after_read (s : State) :
  task_processStreams s = C_await_portUnreadable ->
  portUnreadable s = R_settled Fulfilled ->
  exists s1,
    step ResumeProcessStreams s = Some s1 /\
    task_processStreams s1 = C_await_portUnwritable.
Proof.
  intros Ht Hr. destruct_state s. subst. by eexists.
Qed.

Lemma resume_after_write (s : State) :
  task_processStreams s = C_await_portUnwritable ->
  portUnwritable s = W_settled Fulfilled ->
  exists s1,
    step ResumeProcessStreams s = Some s1 /\
    task_processStreams s1 = C_await_close.
Proof.
  intros Ht Hr. destruct_state s. subst. by eexists.
Qed.

Lemma close_resets (s : State) :
  task_processStreams s = C_await_close ->
  exists s1,
    step (CloseSettles Fulfilled) s = Some s1 /\
    connected s1 = false /\
    task_processStreams s1 = C_settled Fulfilled /\
    ui_disconnected (dom s1) /\
    task_requestNewPort s1 = task_requestNewPort s.
Proof.
  intros Ht. destruct_state s. subst. eexists. split; [done|].
  eval_goal. cbn. by repeat split.
Qed.

Lemma reach_unwritable (s : State) :
  reachable s ->
  task_processStreams s = C_await_portUnreadable ->
  exists evs s1,
    exec evs s = Some s1 /\ task_processStreams s1 = C_await_portUnwritable.
Proof.
  intros Hs Ht.
  pose proof (reachable_Inv s Hs) as [_ _ _ I4 _ _].
  unfold phase_ok in I4. rewrite Ht in I4. destruct I4 as (Hc & _).
  destruct (click_aborts s Hs Hc) as (s1 & Hstep1 & Hab1).
  pose proof (reachable_step _ _ _ Hs Hstep1) as Hs1.
  pose proof (streams_task_step _ _ _ Hstep1 ltac:(done) ltac:(done) ltac:(done))
    as Ht1.
  rewrite Ht in Ht1.
  pose proof (reachable_Inv s1 Hs1) as [_ I2 _ I4 _ _].
  unfold phase_ok in I4. rewrite Ht1 in I4. destruct I4 as (_ & _ & Hr1 & _).
  unfold read_task_ok in I2.
  destruct (portUnreadable s1) as [|o|o] eqn:Hr; [done| |].
  - destruct (read_pipe_aborts s1 o Hs1 Hr Hab1) as (s2 & Hstep2 & Hr2).
    pose proof (streams_task_step _ _ _ Hstep2 ltac:(done) ltac:(done) ltac:(done))
      as Ht2.
    rewrite Ht1 in Ht2.
    destruct (resume_after_read s2 Ht2 Hr2) as (s3 & Hstep3 & Ht3).
    exists [Click; PipeSettles ReadPipe SignalAborted; ResumeProcessStreams], s3.
    cbn [exec]. by rewrite Hstep1, Hstep2, Hstep3.
  - subst o.
    destruct (resume_after_read s1 Ht1 Hr) as (s3 & Hstep3 & Ht3).
    exists [Click; ResumeProcessStreams], s3.
    cbn [exec]. by rewrite Hstep1, Hstep3.
Qed.

Lemma await_echo_returns (s : State) (echo : PipeOptions) (p : Promise) :
  reachable s ->
  task_processStreams s = C_await_portUnwritable ->
  portUnwritable s = W_await_echo echo p ->
  exists evs s1,
    exec evs s = Some s1 /\
    task_processStreams s1 = C_await_portUnwritable /\
    portUnwritable s1 = W_settled Fulfilled.
Proof.
  intros Hs Ht Hw. destruct p as [|out].
  - destruct (echo_pipe_aborts s echo Hs Hw) as (s1 & out & Hstep1 & Hw1).
    pose proof (reachable_step _ _ _ Hs Hstep1) as Hs1.
    pose proof (streams_task_step _ _ _ Hstep1 ltac:(done) ltac:(done) ltac:(done))
      as Ht1.
    rewrite Ht in Ht1.
    pose proof (reachable_Inv s1 Hs1) as [_ _ _ I4 _ _].
    unfold phase_ok in I4. rewrite Ht1 in I4.
    destruct I4 as (_ & _ & _ & _ & Hab1).
    destruct (write_pump_returns s1 echo out Hw1 Hab1) as (s2 & Hstep2 & Hw2).
    pose proof (streams_task_step _ _ _ Hstep2 ltac:(done) ltac:(done) ltac:(done))
      as Ht2.
    rewrite Ht1 in Ht2.
    exists [PipeSettles EchoPipe SignalAborted; ResumeProcessWritableStream], s2.
    cbn [exec]. by rewrite Hstep1, Hstep2.
  - pose proof (reachable_Inv s Hs) as [_ _ _ I4 _ _].
    unfold phase_ok in I4. rewrite Ht in I4.
    destruct I4 as (_ & _ & _ & _ & Hab).
    destruct (write_pump_returns s echo out Hw Hab) as (s2 & Hstep2 & Hw2).
    pose proof (streams_task_step _ _ _ Hstep2 ltac:(done) ltac:(done) ltac:(done))
      as Ht2.
    rewrite Ht in Ht2.
    exists [ResumeProcessWritableStream], s2.
    cbn [exec]. by rewrite Hstep2.
Qed.

Lemma reach_close (s : State) :
  reachable s ->
  task_processStreams s = C_await_portUnwritable ->
  exists evs s1, exec evs s = Some s1 /\ task_processStreams s1 = C_await_close.
Proof.
  intros Hs Ht.
  pose proof (reachable_Inv s Hs) as [_ _ I3 I4 _ _].
  unfold phase_ok in I4. rewrite Ht in I4.
  destruct I4 as (_ & _ & _ & Hw & Hab).
  assert (exists evs s1,
            exec evs s = Some s1 /\
            task_processStreams s1 = C_await_portUnwritable /\
            portUnwritable s1 = W_settled Fulfilled) as (evs & s1 & Hex & Ht1 & Hw1).
  { unfold write_task_ok in I3.
    destruct (portUnwritable s) as [|o echo p|echo p|o] eqn:Hws; [done| | |].
    - destruct (write_pipe_aborts s o echo p Hs Hws Hab) as (s1 & Hstep1 & Hw1).
      pose proof (reachable_step _ _ _ Hs Hstep1) as Hs1.
      pose proof (streams_task_step _ _ _ Hstep1
                    ltac:(done) ltac:(done) ltac:(done)) as Ht1.
      rewrite Ht in Ht1.
      destruct (await_echo_returns s1 echo p Hs1 Ht1 Hw1) as (evs & s2 & Hex & H2).
      exists (PipeSettles WritePipe SignalAborted :: evs), s2.
      cbn [exec]. by rewrite Hstep1.
    - by apply (await_echo_returns s echo p).
    - subst o. by exists [], s. }
  destruct (resume_after_write s1 Ht1 Hw1) as (s2 & Hstep2 & Ht2).
  exists (evs ++ [ResumeProcessStreams]), s2.
  rewrite exec_app, Hex. cbn [exec]. by rewrite Hstep2.
Qed.

(** X11: a session can always be left.  From every state with [connected]
    set, unless [port.close] has failed, there are events (a click, the
    pipes stopping on the abort, the port closing) after which [connected]
    is [false], [processStreams] has returned, the button reads "Connect"
    and the settings are enabled; the next click then requests a port. *)
Theorem session_can_be_closed (s : State) :
  reachable s ->
  connected s = true ->
  (forall e, task_processStreams s <> C_settled (Rejected e)) ->
  exists evs s',
    exec evs s = Some s' /\
    connected s' = false /\
    task_processStreams s' = C_settled Fulfilled /\
    ui_disconnected (dom s') /\
    exists s'',
      step Click s' = Some s'' /\
      log s'' = log s' ++ [(in_requestNewPort, RequestPort)].
Proof.
  intros Hs Hc Hne.
  assert (exists evs s1,
            exec evs s = Some s1 /\ task_processStreams s1 = C_await_close)
    as (evs & s1 & Hex & Ht1).
  { pose proof (reachable_Inv s Hs) as [_ _ _ I4 _ _]. unfold phase_ok in I4.
    destruct (task_processStreams s) as [| | | |[|e]] eqn:Ht.
    - destruct I4 as [? _]. congruence.
    - destruct (reach_unwritable s Hs Ht) as (evs1 & s1 & Hex1 & Ht1).
      pose proof (exec_reachable _ _ _ Hs Hex1) as Hs1.
      destruct (reach_close s1 Hs1 Ht1) as (evs2 & s2 & Hex2 & Ht2).
      exists (evs1 ++ evs2), s2. by rewrite exec_app, Hex1.
    - by apply reach_close.
    - by exists [], s.
    - destruct I4 as [? _]. congruence.
    - by destruct (Hne e). }
  pose proof (exec_reachable _ _ _ Hs Hex) as Hs1.
  pose proof (reachable_Inv s1 Hs1) as [_ _ _ I4 _ _]. unfold phase_ok in I4.
  rewrite Ht1 in I4. destruct I4 as (_ & Hn1 & _).
  destruct (close_resets s1 Ht1) as (s2 & Hstep2 & Hc2 & Ht2 & Hui2 & Hn2).
  rewrite Hn1 in Hn2.
  exists (evs ++ [CloseSettles Fulfilled]), s2.
  rewrite exec_app, Hex. cbn [exec]. rewrite Hstep2.
  do 4 (split; [done|]).
  clear -Hc2 Hn2. destruct_state s2. subst. by eexists.
Qed.

(** ** Some more states of the page *)

Example session_reachable : reachable session.
Proof. apply (reachable_exec form0 connect). vm_compute. reflexivity. Qed.

Example open_failed_reachable : reachable open_failed.
Proof.
  apply (reachable_exec form0
           [Click; RequestPortSettles Fulfilled; OpenSettles (Rejected NetworkError)]).
  vm_compute. reflexivity.
Qed.

Example close_failed_reachable : reachable close_failed.
Proof.
  apply (reachable_exec form0
           (connect ++ disconnect ++ [CloseSettles (Rejected NetworkError)])).
  vm_compute. reflexivity.
Qed.

(** ** The theorems at work on a session *)

(** [read_failure_reported] at work. *)
Lemma read_failure_reported_witness :
  (reachable session) /\
  (pipe_outcome (SourceErrored BufferOverrunError) =
   Rejected BufferOverrunError) /\
  (name BufferOverrunError ≠ "AbortError") /\
  (step (PipeSettles ReadPipe (SourceErrored BufferOverrunError))
     session =
   Some session_read_error) /\
  (display session_read_error =
   display session ++
   [Writeln
      ("<READ ERROR: " +:+ message BufferOverrunError +:+ ">")]
   ∧ (port_readable session &&
      negb (aborted session (streamController session)) = true
      → portUnreadable session_read_error =
        R_piping (pipe_options (streamController session))
        ∧ ops_of in_processReadableStream
            (log session_read_error) =
          ops_of in_processReadableStream (log session) ++
          [Writeln
             ("<READ ERROR: " +:+
              message BufferOverrunError +:+ ">");
           PipeTo ReadPipe
             (pipe_options (streamController session))])
     ∧ (port_readable session &&
        negb (aborted session (streamController session)) =
        false
        → portUnreadable session_read_error =
          R_settled Fulfilled
          ∧ ∃ s'' : State,
              step ResumeProcessStreams session_read_error =
              Some s''
              ∧ task_processStreams s'' =
                C_await_portUnwritable
                ∧ aborted s'' (streamController s'') = true)).
Proof.
  assert (H1 : reachable session).
  { apply (reachable_exec form0 (connect)); vm_compute; reflexivity. }
  assert (H2 : pipe_outcome (SourceErrored BufferOverrunError) =
    Rejected BufferOverrunError).
  { reflexivity. }
  assert (H3 : name BufferOverrunError ≠ "AbortError").
  { discriminate. }
  assert (H4 : step (PipeSettles ReadPipe (SourceErrored BufferOverrunError))
      session =
    Some session_read_error).
  { vm_compute; reflexivity. }
  exact
    (conj H1
    (conj H2
    (conj H3
    (conj H4
    (read_failure_reported
       session session_read_error (SourceErrored BufferOverrunError) BufferOverrunError
       H1 H2 H3 H4))))).
Defined.

(** [close_failure_unhandled] at work. *)
Lemma close_failure_unhandled_witness :
  (step (CloseSettles (Rejected NetworkError)) closing =
   Some close_failed) /\
  (task_processStreams closing = C_await_close
   ∧ log close_failed = log closing
     ∧ display close_failed = display closing
       ∧ dom close_failed = dom closing
         ∧ connected close_failed = connected closing
           ∧ task_processStreams close_failed =
             C_settled (Rejected NetworkError)
             ∧ ∀ (evs : list Event) (s'' : State),
                 exec evs close_failed = Some s''
                 → ¬ In (OpenSettles Fulfilled) evs
                   → task_processStreams s'' =
                     C_settled (Rejected NetworkError)
                     ∧ ops_of in_processStreams (log s'') =
                       ops_of in_processStreams (log close_failed)).
Proof.
  assert (H1 : step (CloseSettles (Rejected NetworkError)) closing =
    Some close_failed).
  { vm_compute; reflexivity. }
  exact
    (conj H1
    (close_failure_unhandled
       closing close_failed NetworkError
       H1)).
Defined.

(** [teardown_order] at work. *)
Lemma teardown_order_witness :
  (exec disconnect session = Some closing) /\
  (¬ In (OpenSettles Fulfilled) disconnect) /\
  (no_pump_rejected session) /\
  (streamController closing = streamController session
   ∧ progress (task_processStreams session) <=
     progress (task_processStreams closing)
     ∧ ops_of in_processStreams (log closing) =
       ops_of in_processStreams (log session) ++
       drop (progress (task_processStreams session))
         (take (progress (task_processStreams closing))
            (run_ops (streamController session)))
       ∧ (task_processStreams closing = C_await_portUnreadable
          → match portUnreadable closing with
            | R_settled _ =>
                ∃ s'' : State,
                  step ResumeProcessStreams closing = Some s''
                  ∧ task_processStreams s'' =
                    C_await_portUnwritable
                    ∧ log s'' =
                      log closing ++
                      [(in_processStreams,
                        Resumed await_portUnreadable);
                       (in_processStreams,
                        AbortCall (streamController closing))]
                      ∧ (streamController closing <
                         length (controllers closing)
                         → aborted s'' (streamController closing) =
                           true)
            | _ =>
                ∀ (ev : Event) (s'' : State),
                  step ev closing = Some s''
                  → ev ≠ OpenSettles Fulfilled
                    → task_processStreams s'' =
                      C_await_portUnreadable
            end)
         ∧ (task_processStreams closing = C_await_portUnwritable
            → match portUnwritable closing with
              | W_settled _ =>
                  ∃ s'' : State,
                    step ResumeProcessStreams closing = Some s''
                    ∧ task_processStreams s'' = C_await_close
                      ∧ log s'' =
                        log closing ++
                        [(in_processStreams,
                          Resumed await_portUnwritable);
                         (in_processStreams, Close)]
              | _ =>
                  ∀ (ev : Event) (s'' : State),
                    step ev closing = Some s''
                    → ev ≠ OpenSettles Fulfilled
                      → task_processStreams s'' =
                        C_await_portUnwritable
              end)
           ∧ (task_processStreams closing = C_await_close
              → ∃ s'' : State,
                  step (CloseSettles Fulfilled) closing =
                  Some s''
                  ∧ task_processStreams s'' = C_settled Fulfilled
                    ∧ connected s'' = false
                      ∧ ui_disconnected (dom s'')
                        ∧ display s'' =
                          display closing ++
                          [Writeln "<DISCONNECTED>"]
                          ∧ ops_of in_processStreams (log s'') =
                            ops_of in_processStreams
                              (log closing) ++
                            drop 5
                              (run_ops (streamController closing)))).
Proof.
  assert (H1 : exec disconnect session = Some closing).
  { vm_compute; reflexivity. }
  assert (H2 : ¬ In (OpenSettles Fulfilled) disconnect).
  { cbn; intuition discriminate. }
  assert (H3 : no_pump_rejected session).
  { split; intros e; vm_compute; discriminate. }
  exact
    (conj H1
    (conj H2
    (conj H3
    (teardown_order
       disconnect session closing
       H1 H2 H3)))).
Defined.

(** [echo_gated_at_delivery] at work. *)
Lemma echo_gated_at_delivery_witness :
  (step EchoTakes session_echo_typed = Some session_echo_shown) /\
  (∃ (chunk : Chunk) (rest : list Chunk),
   termOutputForEcho session_echo_typed = chunk :: rest
   ∧ termOutputForEcho session_echo_shown = rest
     ∧ display session_echo_shown =
       display session_echo_typed ++
       (if checked (el_echoCheckbox (dom session_echo_typed))
        then [WriteUtf8 chunk]
        else [])
       ∧ ∀ (s0 s1 : State) (b : bool) (evs : list Event),
           step (SetChecked echoCheckbox b) s0 = Some s1
           → (∀ b' : bool, ¬ In (SetChecked echoCheckbox b') evs)
             → exec evs s1 = Some session_echo_typed
               → checked (el_echoCheckbox (dom session_echo_typed)) =
                 b).
Proof.
  assert (H1 : step EchoTakes session_echo_typed = Some session_echo_shown).
  { vm_compute; reflexivity. }
  exact
    (conj H1
    (echo_gated_at_delivery
       session_echo_typed session_echo_shown
       H1)).
Defined.

(** [write_failure_reported] at work. *)
Lemma write_failure_reported_witness :
  (reachable session) /\
  (pipe_outcome (DestinationErrored NetworkError) =
   Rejected NetworkError) /\
  (name NetworkError ≠ "AbortError") /\
  (step (PipeSettles WritePipe (DestinationErrored NetworkError))
     session =
   Some session_write_error) /\
  (display session_write_error =
   display session ++
   [Writeln ("<WRITE ERROR: " +:+ message NetworkError +:+ ">")]
   ∧ connected session_write_error = connected session
     ∧ task_processStreams session_write_error =
       task_processStreams session
       ∧ portUnreadable session_write_error =
         portUnreadable session
         ∧ streamController session_write_error =
           streamController session
           ∧ aborted session_write_error
               (streamController session_write_error) =
             aborted session (streamController session)
             ∧ (∃ (echo : PipeOptions) (p : Promise),
                  portUnwritable session_write_error =
                  W_await_echo echo p)
               ∧ ∀ s1 s2 : State,
                   step ResumeProcessWritableStream s1 =
                   Some s2
                   → (port_writable s1 &&
                      negb (aborted s1 (streamController s1)) =
                      true
                      → portUnwritable s2 =
                        W_piping
                          (pipe_options (streamController s1))
                          (pipe_options (fresh_controller s1))
                          Pending)
                     ∧ (port_writable s1 &&
                        negb (aborted s1 (streamController s1)) =
                        false
                        → portUnwritable s2 =
                          W_settled Fulfilled ∧
                          log s2 = log s1)).
Proof.
  assert (H1 : reachable session).
  { apply (reachable_exec form0 (connect)); vm_compute; reflexivity. }
  assert (H2 : pipe_outcome (DestinationErrored NetworkError) =
    Rejected NetworkError).
  { reflexivity. }
  assert (H3 : name NetworkError ≠ "AbortError").
  { discriminate. }
  assert (H4 : step (PipeSettles WritePipe (DestinationErrored NetworkError))
      session =
    Some session_write_error).
  { vm_compute; reflexivity. }
  exact
    (conj H1
    (conj H2
    (conj H3
    (conj H4
    (write_failure_reported
       session session_write_error (DestinationErrored NetworkError) NetworkError
       H1 H2 H3 H4))))).
Defined.

(** [open_failure_starts_nothing] at work. *)
Lemma open_failure_starts_nothing_witness :
  (OpenSettles (Rejected NetworkError) =
   RequestPortSettles (Rejected NetworkError)
   ∨ OpenSettles (Rejected NetworkError) =
     OpenSettles (Rejected NetworkError)) /\
  (step (OpenSettles (Rejected NetworkError)) opening =
   Some open_failed) /\
  ((name NetworkError = "NotFoundError"
    → log open_failed = log opening
      ∧ display open_failed = display opening)
   ∧ (name NetworkError ≠ "NotFoundError"
      → log open_failed =
        log opening ++
        [(in_requestNewPort,
          Writeln ("<CONNECT ERROR: " +:+ message NetworkError))]
        ∧ display open_failed =
          display opening ++
          [Writeln ("<CONNECT ERROR: " +:+ message NetworkError)])
     ∧ connected open_failed = connected opening
       ∧ (connected opening = false → connected open_failed = false)
         ∧ dom open_failed = dom opening
           ∧ (ui_disconnected (dom opening)
              → ui_disconnected (dom open_failed))
             ∧ task_requestNewPort open_failed = N_idle
               ∧ task_processStreams open_failed =
                 task_processStreams opening
                 ∧ portUnreadable open_failed =
                   portUnreadable opening
                   ∧ portUnwritable open_failed =
                     portUnwritable opening
                     ∧ controllers open_failed =
                       controllers opening
                       ∧ streamController open_failed =
                         streamController opening
                         ∧ ops_of in_processStreams
                             (log open_failed) =
                           ops_of in_processStreams (log opening)).
Proof.
  assert (H1 : OpenSettles (Rejected NetworkError) =
    RequestPortSettles (Rejected NetworkError)
    ∨ OpenSettles (Rejected NetworkError) =
      OpenSettles (Rejected NetworkError)).
  { right; reflexivity. }
  assert (H2 : step (OpenSettles (Rejected NetworkError)) opening =
    Some open_failed).
  { vm_compute; reflexivity. }
  exact
    (conj H1
    (conj H2
    (open_failure_starts_nothing
       opening open_failed (OpenSettles (Rejected NetworkError)) NetworkError
       H1 H2))).
Defined.

(** [echo_is_side_tap] at work. *)
Lemma echo_is_side_tap_witness :
  (reachable session_aborted) /\
  (portUnwritable session_aborted =
   W_piping (pipe_options 1) (pipe_options 2) Pending) /\
  ((∀ s0 : State,
      port_writable s0 && negb (aborted s0 (streamController s0)) =
      true
      → portUnwritable (processWritableStream s0) =
        W_piping (pipe_options (streamController s0))
          (pipe_options (length (controllers s0))) Pending
        ∧ controllers (processWritableStream s0) =
          controllers s0 ++ [false])
   ∧ pipe_options 2 = pipe_options (signal (pipe_options 2))
     ∧ signal (pipe_options 2) ≠ streamController session_aborted
       ∧ pipe_options 1 =
         pipe_options (streamController session_aborted)
         ∧ (∀ (q : Pipe) (a : StreamAction),
              ¬ In (in_platform, Shutdown q a)
                  (log session_aborted))
           ∧ (∀ (c : PipeCause) (s' : State),
                step (PipeSettles EchoPipe c) session_aborted =
                Some s'
                → log s' = log session_aborted
                  ∧ termOutputForEcho s' =
                    termOutputForEcho session_aborted
                    ∧ termOutputForPort s' =
                      termOutputForPort session_aborted
                      ∧ portUnwritable s' =
                        W_piping (pipe_options 1)
                          (pipe_options 2)
                          (Settled (pipe_outcome c)))
             ∧ ∀ s1 : State,
                 step (PipeSettles WritePipe SignalAborted)
                   session_aborted =
                 Some s1
                 → log s1 =
                   log session_aborted ++
                   [(in_processWritableStream,
                     AbortCall (signal (pipe_options 2)))]
                   ∧ aborted s1 (signal (pipe_options 2)) = true
                     ∧ portUnwritable s1 =
                       W_await_echo (pipe_options 2) Pending
                       ∧ (Pending = Pending
                          → step ResumeProcessWritableStream s1 =
                            None)
                         ∧ (∀ (evs : list Event) (s2 s3 : State),
                              ¬ In ResumeProcessWritableStream evs
                              → exec evs s1 = Some s2
                                → step ResumeProcessWritableStream
                                    s2 =
                                  Some s3
                                  → portUnwritable s3 =
                                    W_settled Fulfilled
                                    ∧ ops_of
                                        in_processWritableStream
                                        (log s3) =
                                      ops_of
                                        in_processWritableStream
                                        (log s1))
                           ∧ ∃ (evs : list Event) (s3 : State),
                               exec evs s1 = Some s3
                               ∧ portUnwritable s3 =
                                 W_settled Fulfilled).
Proof.
  assert (H1 : reachable session_aborted).
  { apply (reachable_exec form0 (connect ++ [Click])); vm_compute; reflexivity. }
  assert (H2 : portUnwritable session_aborted =
    W_piping (pipe_options 1) (pipe_options 2) Pending).
  { reflexivity. }
  exact
    (conj H1
    (conj H2
    (echo_is_side_tap
       session_aborted (pipe_options 1) (pipe_options 2) Pending
       H1 H2))).
Defined.

(** [cancellation_is_silent] at work. *)
Lemma cancellation_is_silent_witness :
  (reachable session_aborted) /\
  (pipe_outcome SignalAborted = Rejected AbortError) /\
  (name AbortError = "AbortError") /\
  (step (PipeSettles ReadPipe SignalAborted) session_aborted =
   Some session_read_stopped) /\
  (display session_read_stopped = display session_aborted
   ∧ task_processStreams session_read_stopped =
     task_processStreams session_aborted
     ∧ (∀ e' : Error,
          portUnreadable session_read_stopped
          ≠ R_settled (Rejected e'))
       ∧ (∀ e' : Error,
            portUnwritable session_read_stopped
            ≠ W_settled (Rejected e'))
         ∧ (ReadPipe = ReadPipe
            → SignalAborted = SignalAborted
              → portUnreadable session_read_stopped =
                R_settled Fulfilled
                ∧ log session_read_stopped =
                  log session_aborted)
           ∧ (ReadPipe = WritePipe
              → ∃ (echo : PipeOptions) (q : Promise),
                  portUnwritable session_read_stopped =
                  W_await_echo echo q
                  ∧ log session_read_stopped =
                    log session_aborted ++
                    [(in_processWritableStream,
                      AbortCall (signal echo))])
             ∧ (ReadPipe = WritePipe
                → SignalAborted = SignalAborted
                  → ∀ (evs : list Event) (s2 s3 : State),
                      ¬ In ResumeProcessWritableStream evs
                      → exec evs session_read_stopped = Some s2
                        → step ResumeProcessWritableStream s2 =
                          Some s3
                          → portUnwritable s3 =
                            W_settled Fulfilled
                            ∧ ops_of in_processWritableStream
                                (log s3) =
                              ops_of in_processWritableStream
                                (log session_read_stopped))).
Proof.
  assert (H1 : reachable session_aborted).
  { apply (reachable_exec form0 (connect ++ [Click])); vm_compute; reflexivity. }
  assert (H2 : pipe_outcome SignalAborted = Rejected AbortError).
  { reflexivity. }
  assert (H3 : name AbortError = "AbortError").
  { reflexivity. }
  assert (H4 : step (PipeSettles ReadPipe SignalAborted) session_aborted =
    Some session_read_stopped).
  { vm_compute; reflexivity. }
  exact
    (conj H1
    (conj H2
    (conj H3
    (conj H4
    (cancellation_is_silent
       session_aborted session_read_stopped ReadPipe SignalAborted AbortError
       H1 H2 H3 H4))))).
Defined.

(** [baud_rate_unchecked] at work. *)
Lemma baud_rate_unchecked_witness :
  (step (RequestPortSettles Fulfilled) choosing_custom =
   Some opening_custom) /\
  (∃ o : SerialOptions,
   log opening_custom =
   log choosing_custom ++ [(in_connectToPort, Open o)]
   ∧ baudrate o = getSelectedBaudRate (dom choosing_custom)
     ∧ (value (el_baudRateSelector (dom choosing_custom)) =
        "custom"
        → baudrate o =
          parseInt
            (value (el_customBaudRateInput (dom choosing_custom))))
       ∧ (value (el_baudRateSelector (dom choosing_custom))
          ≠ "custom"
          → baudrate o =
            parseInt
              (value (el_baudRateSelector (dom choosing_custom))))
         ∧ (∀ str : string,
              (∀ ch : ascii,
                 In ch (list_ascii_of_string str)
                 → is_decimal_digit ch = true)
              → str ≠ ""
                → parseInt str = to_Number false (decimal str))
           ∧ (∀ str : string,
                (∀ ch : ascii,
                   In ch (list_ascii_of_string str)
                   → is_decimal_digit ch = false)
                → parseInt str = NaN)
             ∧ (∀ (c : ascii) (r : string),
                  starts_with_white_space (String c r) = false
                  → c ≠ "+"%char
                    → c ≠ "-"%char
                      → is_decimal_digit c = false
                        → parseInt (String c r) = NaN)
               ∧ (value (el_baudRateSelector (dom choosing_custom)) =
                  "custom"
                  → (∀ ch : ascii,
                       In ch
                         (list_ascii_of_string
                            (value
                               (el_customBaudRateInput
                                  (dom choosing_custom))))
                       → is_decimal_digit ch = false)
                    → baudrate o = NaN)
                 ∧ (value
                      (el_baudRateSelector (dom choosing_custom)) =
                    "custom"
                    → (∀ ch : ascii,
                         In ch
                           (list_ascii_of_string
                              (value
                                 (el_customBaudRateInput
                                    (dom choosing_custom))))
                         → is_decimal_digit ch = true)
                      → value
                          (el_customBaudRateInput
                             (dom choosing_custom))
                        ≠ ""
                        → baudrate o =
                          to_Number false
                            (decimal
                               (value
                                  (el_customBaudRateInput
                                     (dom choosing_custom)))))).
Proof.
  assert (H1 : step (RequestPortSettles Fulfilled) choosing_custom =
    Some opening_custom).
  { vm_compute; reflexivity. }
  exact
    (conj H1
    (baud_rate_unchecked
       choosing_custom opening_custom
       H1)).
Defined.

(** ** The further theorems at work *)

(** [keys_reach_port_in_order] at work. *)
Lemma keys_reach_port_in_order_witness :
  (exec [Key "a"; Key ""; PortTakes; Key "b"] session =
   Some session_typed) /\
  (port_written (log session_typed) ++
   termOutputForPort session_typed =
   port_written (log session) ++
   termOutputForPort session ++
   keys [Key "a"; Key ""; PortTakes; Key "b"]).
Proof.
  assert (H1 : exec [Key "a"; Key ""; PortTakes; Key "b"] session =
    Some session_typed).
  { vm_compute; reflexivity. }
  exact
    (conj H1
    (keys_reach_port_in_order
       [Key "a"; Key ""; PortTakes; Key "b"] session session_typed
       H1)).
Defined.

(** [echo_shows_typed_chunks] at work. *)
Lemma echo_shows_typed_chunks_witness :
  (exec [SetChecked echoCheckbox true; Key "a"; EchoTakes] session =
   Some session_echo_shown) /\
  (∃ taken sub : list Chunk,
   taken ++ termOutputForEcho session_echo_shown =
   termOutputForEcho session ++
   keys [SetChecked echoCheckbox true; Key "a"; EchoTakes]
   ∧ shown_by in_termInputFromEcho (log session_echo_shown) =
     shown_by in_termInputFromEcho (log session) ++ sub
     ∧ sub `sublist_of` taken).
Proof.
  assert (H1 : exec [SetChecked echoCheckbox true; Key "a"; EchoTakes] session =
    Some session_echo_shown).
  { vm_compute; reflexivity. }
  exact
    (conj H1
    (echo_shows_typed_chunks
       [SetChecked echoCheckbox true; Key "a"; EchoTakes] session session_echo_shown
       H1)).
Defined.

(** [lines_are_annotations] at work. *)
Lemma lines_are_annotations_witness :
  (reachable open_failed) /\
  (In
   (in_requestNewPort,
    Writeln ("<CONNECT ERROR: " +:+ message NetworkError))
   (log open_failed)) /\
  (is_annotation ("<CONNECT ERROR: " +:+ message NetworkError)).
Proof.
  assert (H1 : reachable open_failed).
  { exact open_failed_reachable. }
  assert (H2 : In
    (in_requestNewPort,
     Writeln ("<CONNECT ERROR: " +:+ message NetworkError))
    (log open_failed)).
  { vm_compute; tauto. }
  exact
    (conj H1
    (conj H2
    (lines_are_annotations
       open_failed in_requestNewPort ("<CONNECT ERROR: " +:+ message NetworkError)
       H1 H2))).
Defined.

(** [custom_input_follows_selector] at work. *)
Lemma custom_input_follows_selector_witness :
  (exec custom_baud (initial form0) = Some choosing_custom) /\
  (custom_input_shown (dom (initial form0))
   ∨ (∃ v : string, In (Input baudRateSelector v) custom_baud)) /\
  (custom_input_shown (dom choosing_custom)).
Proof.
  assert (H1 : exec custom_baud (initial form0) = Some choosing_custom).
  { vm_compute; reflexivity. }
  assert (H2 : custom_input_shown (dom (initial form0))
    ∨ (∃ v : string, In (Input baudRateSelector v) custom_baud)).
  { right; exists "custom"; left; reflexivity. }
  exact
    (conj H1
    (conj H2
    (custom_input_follows_selector
       custom_baud (initial form0) choosing_custom
       H1 H2))).
Defined.

(** [ui_agrees_with_connected] at work. *)
Lemma ui_agrees_with_connected_witness :
  (exec (connect ++ disconnect ++ [CloseSettles Fulfilled])
     (initial form0) =
   Some closed) /\
  ((connected closed = true → ui_connected (dom closed))
   ∧ (ui_disconnected form0
      → connected closed = false → ui_disconnected (dom closed))).
Proof.
  assert (H1 : exec (connect ++ disconnect ++ [CloseSettles Fulfilled])
      (initial form0) =
    Some closed).
  { vm_compute; reflexivity. }
  exact
    (conj H1
    (ui_agrees_with_connected
       (connect ++ disconnect ++ [CloseSettles Fulfilled]) form0 closed
       H1)).
Defined.

(** [script_never_writes_entries] at work. *)
Lemma script_never_writes_entries_witness :
  (exec connect (initial form0) = Some session) /\
  ((forallb (λ ev : Event, negb (is_edit ev)) connect = true
    → entries (dom session) = entries (dom (initial form0)))
   ∧ disabled (el_echoCheckbox (dom session)) =
     disabled (el_echoCheckbox (dom (initial form0)))
     ∧ disabled (el_connectButton (dom session)) =
       disabled (el_connectButton (dom (initial form0)))).
Proof.
  assert (H1 : exec connect (initial form0) = Some session).
  { vm_compute; reflexivity. }
  exact
    (conj H1
    (script_never_writes_entries
       connect (initial form0) session
       H1)).
Defined.

(** [settings_frozen_while_connected] at work. *)
Lemma settings_frozen_while_connected_witness :
  (reachable closing) /\
  (connected closing = true) /\
  (step (CloseSettles Fulfilled) closing = Some closed) /\
  (settings (dom closed) = settings (dom closing)).
Proof.
  assert (H1 : reachable closing).
  { exact closing_reachable. }
  assert (H2 : connected closing = true).
  { reflexivity. }
  assert (H3 : step (CloseSettles Fulfilled) closing = Some closed).
  { vm_compute; reflexivity. }
  exact
    (conj H1
    (conj H2
    (conj H3
    (settings_frozen_while_connected
       (CloseSettles Fulfilled) closing closed
       H1 H2 H3)))).
Defined.

(** [open_starts_clean_session] at work. *)
Lemma open_starts_clean_session_witness :
  (step (OpenSettles Fulfilled) second_opening = Some second_session) /\
  (connected second_session = true
   ∧ streamController second_session =
     length (controllers second_opening)
     ∧ aborted second_session (streamController second_session) =
       false
       ∧ portUnreadable second_session =
         R_piping (pipe_options (streamController second_session))
         ∧ portUnwritable second_session =
           W_piping (pipe_options (streamController second_session))
             (pipe_options (S (streamController second_session)))
             Pending
           ∧ aborted second_session
               (S (streamController second_session)) =
             false
             ∧ task_processStreams second_session =
               C_await_portUnreadable
               ∧ task_requestNewPort second_session = N_idle
                 ∧ ops_of in_connectToPort (log second_session) =
                   ops_of in_connectToPort (log second_opening) ++
                   [SetConnected true;
                    SetTextContent connectButton "Disconnect";
                    SetDisabled baudRateSelector true;
                    SetDisabled customBaudRateInput true;
                    SetDisabled dataBitsSelector true;
                    SetDisabled paritySelector true;
                    SetDisabled stopBitsSelector true;
                    SetDisabled flowControlCheckbox true;
                    Writeln "<CONNECTED>"]).
Proof.
  assert (H1 : step (OpenSettles Fulfilled) second_opening = Some second_session).
  { vm_compute; reflexivity. }
  exact
    (conj H1
    (open_starts_clean_session
       second_opening second_session
       H1)).
Defined.

(** [close_failure_is_final] at work. *)
Lemma close_failure_is_final_witness :
  (task_processStreams close_failed = C_settled (Rejected NetworkError)) /\
  (connected close_failed = true) /\
  (task_requestNewPort close_failed = N_idle) /\
  (session_over close_failed) /\
  (ui_connected (dom close_failed)) /\
  (exec [Click; Key "a"; Click] close_failed =
   Some close_failed_clicked) /\
  (task_processStreams close_failed_clicked =
   C_settled (Rejected NetworkError)
   ∧ connected close_failed_clicked = true
     ∧ task_requestNewPort close_failed_clicked = N_idle
       ∧ ui_connected (dom close_failed_clicked)
         ∧ ∃ n : nat,
             log close_failed_clicked =
             log close_failed ++
             repeat
               (in_click_listener,
                AbortCall (streamController close_failed))
               n).
Proof.
  assert (H1 : task_processStreams close_failed = C_settled (Rejected NetworkError)).
  { reflexivity. }
  assert (H2 : connected close_failed = true).
  { reflexivity. }
  assert (H3 : task_requestNewPort close_failed = N_idle).
  { reflexivity. }
  assert (H4 : session_over close_failed).
  { split; reflexivity. }
  assert (H5 : ui_connected (dom close_failed)).
  { vm_compute; repeat split. }
  assert (H6 : exec [Click; Key "a"; Click] close_failed =
    Some close_failed_clicked).
  { vm_compute; reflexivity. }
  exact
    (conj H1
    (conj H2
    (conj H3
    (conj H4
    (conj H5
    (conj H6
    (close_failure_is_final
       [Click; Key "a"; Click] close_failed close_failed_clicked NetworkError
       H1 H2 H3 H4 H5 H6))))))).
Defined.

(** [session_can_be_closed] at work. *)
Lemma session_can_be_closed_witness :
  (reachable session) /\
  (connected session = true) /\
  ((∀ e : Error,
   task_processStreams session ≠ C_settled (Rejected e))) /\
  (∃ (evs : list Event) (s' : State),
   exec evs session = Some s'
   ∧ connected s' = false
     ∧ task_processStreams s' = C_settled Fulfilled
       ∧ ui_disconnected (dom s')
         ∧ ∃ s'' : State,
             step Click s' = Some s''
             ∧ log s'' =
               log s' ++ [(in_requestNewPort, RequestPort)]).
Proof.
  assert (H1 : reachable session).
  { exact session_reachable. }
  assert (H2 : connected session = true).
  { reflexivity. }
  assert (H3 : (∀ e : Error,
    task_processStreams session ≠ C_settled (Rejected e))).
  { intros e; vm_compute; discriminate. }
  exact
    (conj H1
    (conj H2
    (conj H3
    (session_can_be_closed
       session
       H1 H2 H3)))).
Defined.
